(** * A shallow embedding of the FastAPI backend and its logging module

    The development follows the layout of the repository:

    - [first_service]  : [services/first_service.py], the [Animal] data holder;
    - [get_router]     : [routers/get_router.py], the three GET endpoints and
                         the way the router binds a request to them;
    - [app]            : [app.py], the application that includes the router;
    - [logging_module] : [logging_module.py], the [LOGGING_CONFIG] dictionary,
                         [InfoFilter], [QueueListenerHandler] and [init],
                         together with the part of the [logging] library the
                         configuration is interpreted by;
    - [configured]     : the objects the configurations of [init] yield, and
                         the invariant of the process;
    - [samples]        : sample runs.

    The properties follow the definitions: the router, the logging module,
    and the statements of the specification, C1 to C10.

    Python values are modelled as the code has them: integers as [Z], text as
    [string], [None] as [option], dictionaries with a fixed set of literal
    keys as records, dictionaries a name is looked up in and object stores
    (queue objects, log files) as [gmap]s, JSON bodies as an ordered list of
    fields.  The module global [LOGGING_CONFIG] is mutated by every call of
    [init] and the queue of the default argument is shared by every handler
    that uses it, so both live in the state of the process, [World], which
    the functions pass along.  Threads appear as the interleaving of their
    steps: a logging call runs in the thread of the caller, a delivery is a
    turn of a listener thread. *)

From Stdlib Require Import ZArith Ascii String DecimalString DecimalZ DecimalPos.
From stdpp Require Import gmap strings list.

Local Open Scope Z_scope.
Local Open Scope string_scope.
Local Open Scope list_scope.

(** ** JSON values, as returned by the endpoints and written by the formatters *)

#[local] Set Warnings "-register-all".
Inductive json : Type :=
| JNull
| JInt (n : Z)
| JStr (s : string)
| JObj (fields : list (string * json)).
#[local] Set Warnings "register-all".

(** The names of the fields of a JSON object, in order. *)
Definition json_keys (j : json) : list string :=
  match j with
  | JObj fields => fields.*1
  | _ => []
  end.

(** Field lookup in a JSON object. *)
Fixpoint assoc (k : string) (fields : list (string * json)) : option json :=
  match fields with
  | [] => None
  | (k', v) :: rest => if String.eqb k k' then Some v else assoc k rest
  end.

Definition json_get (k : string) (j : json) : option json :=
  match j with
  | JObj fields => assoc k fields
  | _ => None
  end.

(** ** Decimal numerals

    The text of an integer ([str(n)], the [%d] and [%s] conversions) and the
    integer a text denotes: a decimal numeral with an optional minus sign. *)

Definition show_int (z : Z) : string :=
  NilZero.string_of_int (Z.to_int z).

Definition parse_int (s : string) : option Z :=
  Z.of_int <$> NilZero.int_of_string s.

(** ** services/first_service.py *)

Module first_service.

Record Animal := { name : string; species : string }.

Definition make_sound (self : Animal) : string := "Roar!".

Definition Animal_str (self : Animal) : string :=
  name self +:+ " is a " +:+ species self.

End first_service.

(** ** routers/get_router.py *)

Module get_router.
Import first_service.

Definition AnimalService : Animal := {| name := "Simba"; species := "Lion" |}.

(** [@router.get("/")] *)
Definition read_root : json :=
  JObj [("message", JStr "Hello, World!")].

(** [@router.get("/Animal")].  The source calls this function [read_root]
    as well; the decorator has registered the first one before the name is
    bound again, so both routes exist. *)
Definition read_root_Animal : json :=
  JObj [("message",
         JObj [("name", JStr (name AnimalService));
               ("Species", JStr (species AnimalService))])].

(** [@router.get("/items/{item_id}")], [q: str = None]. *)
Definition read_item (item_id : Z) (q : option string) : json :=
  JObj [("item_id", JInt item_id);
        ("q", match q with Some s => JStr s | None => JNull end)].

(** *** The router

    A route is a path template and an endpoint.  A template is a list of
    segments, either literal or a named parameter, which matches one
    non-empty segment without a slash.  A request whose path no template
    matches is answered 404 (the redirection of a path that differs from a
    route by a trailing slash is left out). *)

Inductive segment := Lit (s : string) | Param (p : string).

Inductive endpoint :=
| NoArgs (body : json)
| IntAndQuery (f : Z -> option string -> json).

Record route := { path : list segment; handler : endpoint }.

(** The routes in the order the decorators register them. *)
Definition router : list route :=
  [ {| path := [Lit ""]; handler := NoArgs read_root |};
    {| path := [Lit "Animal"]; handler := NoArgs read_root_Animal |};
    {| path := [Lit "items"; Param "item_id"];
       handler := IntAndQuery read_item |} ].

(** A GET request: the path of the URL and the value of the query
    parameter [q], [None] when the query string has none. *)
Record request := { url_path : string; query_q : option string }.

Inductive response :=
| Ok200 (body : json)
| NotFound404
| Unprocessable422.

(** Splitting a string at every occurrence of a character. *)
Fixpoint split_on (c : Ascii.ascii) (s : string) : list string :=
  match s with
  | EmptyString => [EmptyString]
  | String a s' =>
      if Ascii.eqb a c then EmptyString :: split_on c s'
      else match split_on c s' with
           | [] => [String a EmptyString]
           | w :: ws => String a w :: ws
           end
  end.

(** The segments of a URL path: the text after the leading slash, split at
    slashes.  A path that does not start with a slash has no segments. *)
Definition segments (p : string) : option (list string) :=
  match p with
  | String c rest =>
      if Ascii.eqb c "/" then Some (split_on "/" rest) else None
  | EmptyString => None
  end.

(** Matching the segments of a path against a template; the result is the
    text bound to the parameters, in order. *)
Fixpoint match_path (t : list segment) (segs : list string)
  : option (list string) :=
  match t, segs with
  | [], [] => Some []
  | Lit s :: t', x :: segs' =>
      if String.eqb s x then match_path t' segs' else None
  | Param _ :: t', x :: segs' =>
      if String.eqb x "" then None
      else cons x <$> match_path t' segs'
  | _, _ => None
  end.

(** Calling an endpoint with the parameters bound by the match.  A path
    parameter declared [int] is converted with [parse_int]; when that fails
    the request is answered with a validation error.  (Spellings of an
    integer other than a decimal numeral with an optional minus sign count
    as failures here.) *)
Definition call (e : endpoint) (params : list string) (q : option string)
  : response :=
  match e, params with
  | NoArgs body, [] => Ok200 body
  | IntAndQuery f, [raw] =>
      match parse_int raw with
      | Some item_id => Ok200 (f item_id q)
      | None => Unprocessable422
      end
  | _, _ => NotFound404
  end.

(** The first route whose template matches serves the request. *)
Fixpoint dispatch (routes : list route) (segs : list string)
  (q : option string) : response :=
  match routes with
  | [] => NotFound404
  | r :: rest =>
      match match_path (path r) segs with
      | Some params => call (handler r) params q
      | None => dispatch rest segs q
      end
  end.

End get_router.

(** ** app.py *)

Module app.
Import get_router.

(** [app.include_router(router=GETrouter)]: the routes of the router are
    added to those of the application, without a prefix. *)
Definition include_router (routes : list route) (router : list route)
  : list route :=
  routes ++ router.

(** The application; the documentation routes the framework adds on its own
    are left out. *)
Definition app : list route := include_router [] router.

(** Serving a GET request. *)
Definition GET (req : request) : response :=
  match segments (url_path req) with
  | Some segs => dispatch app segs (query_q req)
  | None => NotFound404
  end.

End app.


(** ** logging_module.py *)

Module logging_module.

(** *** The part of the [logging] library the module relies on *)

Definition NOTSET : Z := 0.
Definition DEBUG : Z := 10.
Definition INFO : Z := 20.
Definition WARNING : Z := 30.
Definition ERROR : Z := 40.
Definition CRITICAL : Z := 50.

(** [logging.getLevelName] on a numeric level. *)
Definition getLevelName (level : Z) : string :=
  if (level =? CRITICAL)%Z then "CRITICAL"
  else if (level =? ERROR)%Z then "ERROR"
  else if (level =? WARNING)%Z then "WARNING"
  else if (level =? INFO)%Z then "INFO"
  else if (level =? DEBUG)%Z then "DEBUG"
  else if (level =? NOTSET)%Z then "NOTSET"
  else "Level " +:+ show_int level.

(** A log record whose message is text and which carries no exception and
    no stack information.  [asctime] is the text of the creation time,
    [message] the merged message, and [extra] the attributes the logging
    call passed with [extra=], in the order of that dictionary; they are the
    attributes the record has beyond the standard ones. *)
Record LogRecord := {
  asctime : string;
  name : string;
  levelno : Z;
  pathname : string;
  lineno : Z;
  funcName : string;
  message : string;
  extra : list (string * json)
}.

Definition levelname (record : LogRecord) : string :=
  getLevelName (levelno record).

(** [record.__dict__.get(field)] for the attributes the two formats of
    this module name; an attribute outside the model reads as [None]. *)
Definition LogRecord_get (field : string) (record : LogRecord) : json :=
  if String.eqb field "asctime" then JStr (asctime record)
  else if String.eqb field "name" then JStr (name record)
  else if String.eqb field "levelname" then JStr (levelname record)
  else if String.eqb field "levelno" then JInt (levelno record)
  else if String.eqb field "pathname" then JStr (pathname record)
  else if String.eqb field "lineno" then JInt (lineno record)
  else if String.eqb field "funcName" then JStr (funcName record)
  else if String.eqb field "message" then JStr (message record)
  else JNull.

(** *** [pythonjsonlogger.jsonlogger.JsonFormatter]

    The formatter reads the names of the fields off its format string: every
    match of [%\((.+?)\)], scanned from left to right.  [scan] is the state
    of that scan: outside a match, after a percent sign, after the opening
    parenthesis (one character of any kind must follow), and inside the
    name.  The dot does not match a line feed, which abandons the match. *)

Inductive scan :=
| Outside
| Percent
| Opened
| Inside (acc : string).

Definition line_feed : Ascii.ascii := Ascii.ascii_of_nat 10.

Fixpoint parse_from (st : scan) (fmt : string) : list string :=
  match fmt with
  | EmptyString => []
  | String c rest =>
      match st with
      | Outside =>
          parse_from (if Ascii.eqb c "%" then Percent else Outside) rest
      | Percent =>
          parse_from (if Ascii.eqb c "(" then Opened
                      else if Ascii.eqb c "%" then Percent
                      else Outside) rest
      | Opened =>
          parse_from (if Ascii.eqb c line_feed then Outside
                      else Inside (String c EmptyString)) rest
      | Inside acc =>
          if Ascii.eqb c ")" then acc :: parse_from Outside rest
          else parse_from (if Ascii.eqb c line_feed then Outside
                           else Inside (acc +:+ String c EmptyString)) rest
      end
  end.

Definition parse (fmt : string) : list string := parse_from Outside fmt.

(** Assignment [d[k] = v] on an ordered dictionary: an existing key keeps
    its position. *)
Fixpoint odict_set (k : string) (v : json) (d : list (string * json))
  : list (string * json) :=
  match d with
  | [] => [(k, v)]
  | (k', v') :: rest =>
      if String.eqb k k' then (k, v) :: rest else (k', v') :: odict_set k v rest
  end.

(** The names of the standard attributes of a record, [RESERVED_ATTRS].
    They cover every attribute a record gets from the logging module of
    Python up to 3.11. *)
Definition RESERVED_ATTRS : list string :=
  ["args"; "asctime"; "created"; "exc_info"; "exc_text"; "filename";
   "funcName"; "levelname"; "levelno"; "lineno"; "module"; "msecs";
   "message"; "msg"; "name"; "pathname"; "process"; "processName";
   "relativeCreated"; "stack_info"; "thread"; "threadName"].

Definition starts_with_underscore (key : string) : bool :=
  match key with
  | String c _ => Ascii.eqb c "_"
  | EmptyString => false
  end.

(** Whether [merge_record_extra] copies an attribute: its name is not
    reserved and does not start with an underscore. *)
Definition merged (reserved : list string) (key : string) : bool :=
  negb (bool_decide (key ∈ reserved)) && negb (starts_with_underscore key).

(** [merge_record_extra]: the attributes of the record that are not
    reserved are copied to the target.  The standard attributes are all
    reserved, so the loop over the attributes of the record comes down to
    the loop over [extra]. *)
Definition merge_record_extra (record : LogRecord)
  (target : list (string * json)) (reserved : list string)
  : list (string * json) :=
  foldl (fun d kv => if merged reserved kv.1 then odict_set kv.1 kv.2 d else d)
        target (extra record).

(** [add_fields]: one entry per required field, read from the record, then
    the extra attributes of the record; the reserved names are the required
    fields and [RESERVED_ATTRS].  (The formatter has no static fields, and
    the dictionary of the message is empty for a record whose message is
    text and which has no exception or stack information.) *)
Definition add_fields (required_fields : list string) (record : LogRecord)
  : list (string * json) :=
  merge_record_extra record
    (foldl (fun d field => odict_set field (LogRecord_get field record) d)
           [] required_fields)
    (required_fields ++ RESERVED_ATTRS).

Definition JsonFormatter_format (fmt : string) (record : LogRecord) : json :=
  JObj (add_fields (parse fmt) record).

(** *** Handlers, filters and sinks *)

(** The filter classes; this module defines one. *)
Inductive Filter := InfoFilter.

(** [InfoFilter.filter] *)
Definition InfoFilter_filter (record : LogRecord) : bool :=
  (levelno record =? INFO)%Z.

Definition Filter_filter (f : Filter) (record : LogRecord) : bool :=
  match f with
  | InfoFilter => InfoFilter_filter record
  end.

(** Where a handler writes: standard output, a file opened for appending,
    or another stream, given by the text of the [stream] entry that names it
    (standard error for [ext://sys.stderr]).  What is written to such a
    stream is not part of the state. *)
Inductive Sink :=
| Stdout
| LogFile (filename : string)
| Stream (target : string).

(** The stream a [stream] entry names. *)
Definition sink_of_stream (target : string) : Sink :=
  if String.eqb target "ext://sys.stdout" then Stdout else Stream target.

(** What [setFormatter] was given: a JSON formatter, or, in the handler
    [_resolve_handlers] builds by hand, the text of the [formatter] entry. *)
Inductive Formatter :=
| JsonFormatter (fmt : string)
| FormatterEntry (s : string).

(** A line of output: a JSON object, or the text [s.format(record)] of a
    formatter that is a plain string [s]. *)
Inductive line :=
| JsonLine (j : json)
| StrFormatLine (s : string).

Record Handler := {
  h_name : string;
  h_level : Z;
  h_filters : list Filter;
  h_formatter : Formatter;
  h_sink : Sink
}.

Definition Handler_format (h : Handler) (record : LogRecord) : line :=
  match h_formatter h with
  | JsonFormatter fmt => JsonLine (JsonFormatter_format fmt record)
  | FormatterEntry s => StrFormatLine s
  end.

(** [Handler.handle]: the record is emitted when every filter accepts it.
    The effect is the list of lines written, each with its sink. *)
Definition Handler_handle (h : Handler) (record : LogRecord)
  : list (Sink * line) :=
  if forallb (fun f => Filter_filter f record) (h_filters h)
  then [(h_sink h, Handler_format h record)]
  else [].

(** *** The configuration dictionary

    [LOGGING_CONFIG] has a fixed set of literal keys, so it is a record; the
    two dictionaries the library looks a name up in, [formatters] and
    [filters], are maps.  A formatter entry is its format string (the
    factory is [JsonFormatter] for both); a filter entry is its class. *)

Record HandlerSpec := {
  hs_class : string;
  hs_formatter : string;
  hs_level : Z;
  hs_filters : list string;
  hs_stream : option string;
  hs_filename : option string;
  hs_mode : option string
}.

(** The entry of the queue handler: the factory is [QueueListenerHandler]
    and [handlers] the list of references it is given. *)
Record QueueHandlerSpec := {
  qs_handlers : list string
}.

Record Handlers := {
  stream : HandlerSpec;
  app_handler : HandlerSpec;
  debug_handler : HandlerSpec;
  error_handler : HandlerSpec;
  queue_handler : QueueHandlerSpec
}.

Record LoggerSpec := {
  ls_handlers : list string;
  ls_level : Z;
  ls_propagate : bool
}.

(** [root_logger] is the entry [loggers['']]. *)
Record Config := {
  version : Z;
  disable_existing_loggers : bool;
  formatters : gmap string string;
  filters : gmap string Filter;
  handlers : Handlers;
  root_logger : LoggerSpec
}.

Definition LOGGING_CONFIG : Config := {|
  version := 1;
  disable_existing_loggers := true;
  formatters :=
    {[ "json" := "%(asctime)s %(name)-12s %(levelname)-4s %(message)s";
       "debug_json" :=
         "%(asctime)s %(name)-12s %(levelname)-4s %(pathname)s %(lineno)d %(funcName)s %(message)s" ]};
  filters := {[ "info_filter" := InfoFilter ]};
  handlers := {|
    stream := {|
      hs_class := "logging.StreamHandler";
      hs_formatter := "debug_json";
      hs_level := INFO;
      hs_filters := [];
      hs_stream := Some "ext://sys.stdout";
      hs_filename := None;
      hs_mode := None |};
    app_handler := {|
      hs_class := "logging.FileHandler";
      hs_formatter := "json";
      hs_level := INFO;
      hs_filters := ["info_filter"];
      hs_stream := None;
      hs_filename := Some "logs/app.log";
      hs_mode := Some "a" |};
    debug_handler := {|
      hs_class := "logging.FileHandler";
      hs_formatter := "debug_json";
      hs_level := DEBUG;
      hs_filters := [];
      hs_stream := None;
      hs_filename := Some "logs/debug.log";
      hs_mode := Some "a" |};
    error_handler := {|
      hs_class := "logging.FileHandler";
      hs_formatter := "debug_json";
      hs_level := WARNING;
      hs_filters := [];
      hs_stream := None;
      hs_filename := Some "logs/errors.log";
      hs_mode := Some "a" |};
    queue_handler := {|
      qs_handlers := ["cfg://handlers.app_handler";
                      "cfg://handlers.error_handler"] |}
  |};
  root_logger := {|
    ls_handlers := ["queue_handler"];
    ls_level := INFO;
    ls_propagate := false |}
|}.

(** *** Objects of the running process *)

(** A bounded FIFO queue; [maxsize <= 0] means unbounded. *)
Record Queue := {
  maxsize : Z;
  items : list LogRecord
}.

(** What a position of the list given to [QueueListenerHandler] holds once
    it is read: a configured handler, the dictionary of a handler that is
    not configured yet, or something else. *)
Inductive item :=
| Instance (h : Handler)
| Dict (spec : HandlerSpec)
| Other.

(** The argument [handlers]: a plain list, or a [ConvertingList], whose
    positions are converted when they are indexed; a conversion can fail. *)
Inductive handlers_arg :=
| PlainList (l : list item)
| ConvertingList (l : list string) (convert : string -> option item).

(** Queue objects live in a store and are referred to by their address. *)
Record QueueListener := {
  ql_queue : nat;
  ql_handlers : list item;
  respect_handler_level : bool
}.

Record QueueListenerHandler := {
  queue : nat;
  _listener : QueueListener
}.

(** A handler attached to a logger: one that writes in the thread of the
    caller, or the queue handler. *)
Inductive AnyHandler :=
| Direct (h : Handler)
| Queued (q : QueueListenerHandler).

Record Logger := {
  l_level : Z;
  l_handlers : list (string * AnyHandler);
  l_propagate : bool
}.

(** The state of the process: the module global [LOGGING_CONFIG], the
    queue bound to the default of [QueueListenerHandler.__init__] when the
    class is defined, the store of queue objects, the root logger, the
    listener threads that were started, and the sinks.  Loggers other than
    the root logger have no state of their own here (no level, no handler),
    and the standard error stream is not a sink of the model. *)
Record World := {
  logging_config : Config;
  default_queue : nat;
  heap : gmap nat Queue;
  next_queue : nat;
  root : Logger;
  threads : list QueueListener;
  files : gmap string (list line);
  stdout : list line
}.

Definition set_logging_config (cfg : Config) (w : World) : World :=
  {| logging_config := cfg; default_queue := default_queue w;
     heap := heap w; next_queue := next_queue w; root := root w;
     threads := threads w; files := files w; stdout := stdout w |}.

Definition set_heap (h : gmap nat Queue) (w : World) : World :=
  {| logging_config := logging_config w; default_queue := default_queue w;
     heap := h; next_queue := next_queue w; root := root w;
     threads := threads w; files := files w; stdout := stdout w |}.

Definition set_root (r : Logger) (w : World) : World :=
  {| logging_config := logging_config w; default_queue := default_queue w;
     heap := heap w; next_queue := next_queue w; root := r;
     threads := threads w; files := files w; stdout := stdout w |}.

Definition set_threads (t : list QueueListener) (w : World) : World :=
  {| logging_config := logging_config w; default_queue := default_queue w;
     heap := heap w; next_queue := next_queue w; root := root w;
     threads := t; files := files w; stdout := stdout w |}.

(** [Queue(maxsize)]: a new queue object at a fresh address. *)
Definition Queue_new (size : Z) (w : World) : nat * World :=
  let q := next_queue w in
  (q,
   {| logging_config := logging_config w; default_queue := default_queue w;
      heap := <[q := {| maxsize := size; items := [] |}]> (heap w);
      next_queue := S q; root := root w;
      threads := threads w; files := files w; stdout := stdout w |}).

(** [put_nowait]: [None] when the queue is full. *)
Definition put_nowait (q : nat) (record : LogRecord) (w : World)
  : option World :=
  match heap w !! q with
  | Some qu =>
      if (0 <? maxsize qu)%Z && (maxsize qu <=? Z.of_nat (length (items qu)))%Z
      then None
      else Some (set_heap (<[q := {| maxsize := maxsize qu;
                                     items := items qu ++ [record] |}]> (heap w)) w)
  | None => None
  end.

(** [get]: the oldest record; [None] when the queue is empty (the caller
    waits). *)
Definition get (q : nat) (w : World) : option (LogRecord * World) :=
  match heap w !! q with
  | Some qu =>
      match items qu with
      | record :: rest =>
          Some (record,
                set_heap (<[q := {| maxsize := maxsize qu; items := rest |}]>
                            (heap w)) w)
      | [] => None
      end
  | None => None
  end.

(** Appending a line to a sink.  What is written to a stream other than
    standard output is not kept in the state. *)
Definition write (out : Sink * line) (w : World) : World :=
  match out.1 with
  | Stdout =>
      {| logging_config := logging_config w; default_queue := default_queue w;
         heap := heap w; next_queue := next_queue w; root := root w;
         threads := threads w; files := files w;
         stdout := stdout w ++ [out.2] |}
  | LogFile f =>
      {| logging_config := logging_config w; default_queue := default_queue w;
         heap := heap w; next_queue := next_queue w; root := root w;
         threads := threads w;
         files := <[f := default [] (files w !! f) ++ [out.2]]> (files w);
         stdout := stdout w |}
  | Stream _ => w
  end.

Definition perform (outs : list (Sink * line)) (w : World) : World :=
  foldl (fun w out => write out w) w outs.

(** *** [_resolve_handlers] and [QueueListenerHandler] *)

(** The handler the loop builds by hand for a dictionary whose class is
    [logging.StreamHandler]: the stream and the level of the dictionary,
    and its [formatter] entry as it stands; the handler has no name.
    [None]: the dictionary has no [stream] and [handler['stream']] raises. *)
Definition manual_stream_handler (spec : HandlerSpec) : option Handler :=
  match hs_stream spec with
  | Some target =>
      Some {| h_name := "";
              h_level := hs_level spec;
              h_filters := [];
              h_formatter := FormatterEntry (hs_formatter spec);
              h_sink := sink_of_stream target |}
  | None => None
  end.

Definition _resolve_handlers (l : handlers_arg) : option (list item) :=
  match l with
  | PlainList l => Some l
  | ConvertingList l convert =>
      mapM (fun ref =>
              handler ← convert ref;
              match handler with
              | Dict spec =>
                  if String.eqb (hs_class spec) "logging.StreamHandler"
                  then Instance <$> manual_stream_handler spec
                  else Some handler
              | _ => Some handler
              end) l
  end.

(** [QueueListener.start]: the listener thread runs from now on. *)
Definition start (l : QueueListener) (w : World) : World :=
  set_threads (threads w ++ [l]) w.

(** [QueueListenerHandler.__init__].  [queue = None] stands for a call
    that does not pass the argument: the parameter is then bound to the
    default, the queue object made when the class was defined.  The exit
    hook registered with [atexit] is outside the model. *)
Definition QueueListenerHandler_init (handlers : handlers_arg)
  (respect : bool) (auto_run : bool) (queue_arg : option nat) (w : World)
  : option (QueueListenerHandler * World) :=
  let q := default (default_queue w) queue_arg in
  resolved ← _resolve_handlers handlers;
  let listener := {| ql_queue := q;
                     ql_handlers := resolved;
                     respect_handler_level := respect |} in
  let self := {| queue := q; _listener := listener |} in
  Some (self, if auto_run then start listener w else w).

(** The state of the process once the module is imported: the class
    definition has evaluated [Queue(1000)], the root logger is the
    library's (level [WARNING], no handler). *)
Definition import_module : World :=
  let w0 := {| logging_config := LOGGING_CONFIG;
               default_queue := 0%nat;
               heap := ∅;
               next_queue := 0%nat;
               root := {| l_level := WARNING; l_handlers := [];
                          l_propagate := true |};
               threads := [];
               files := ∅;
               stdout := [] |} in
  let '(q, w1) := Queue_new 1000 w0 in
  {| logging_config := logging_config w1; default_queue := q;
     heap := heap w1; next_queue := next_queue w1; root := root w1;
     threads := threads w1; files := files w1; stdout := stdout w1 |}.

(** *** [logging.config.dictConfig] on a configuration of this shape

    [None] stands for an exception, or for an entry of a form the model
    does not cover.  The handlers of the previous configuration are closed
    by the library; a file handler opened for appending opens its file again
    when it is given a record, and a listener that was started keeps
    running, so closing changes nothing in this model.  The flag
    [disable_existing_loggers] acts on named loggers and has no effect
    here.  The directory [logs/] is taken to exist, so that the file
    handlers can open their files. *)

Definition configure_handler (cfg : Config) (name : string)
  (spec : HandlerSpec) : option Handler :=
  fmt ← formatters cfg !! hs_formatter spec;
  flts ← mapM (fun f => filters cfg !! f) (hs_filters spec);
  sink ← (if String.eqb (hs_class spec) "logging.StreamHandler" then
            match hs_stream spec with
            | Some target => Some (sink_of_stream target)
            | None => Some (Stream "ext://sys.stderr")
            end
          else if String.eqb (hs_class spec) "logging.FileHandler" then
            match hs_mode spec with
            | Some "a" | None => LogFile <$> hs_filename spec
            | _ => None
            end
          else None);
  Some {| h_name := name;
          h_level := hs_level spec;
          h_filters := flts;
          h_formatter := JsonFormatter fmt;
          h_sink := sink |}.

Fixpoint strip_prefix (p s : string) : option string :=
  match p, s with
  | EmptyString, _ => Some s
  | String a p', String b s' =>
      if Ascii.eqb a b then strip_prefix p' s' else None
  | String _ _, EmptyString => None
  end.

(** The conversion of a reference [cfg://handlers.<name>] at the moment
    the queue handler is configured.  Handlers are configured in the order
    of their sorted names, so [configured] holds those before
    [queue_handler]; [stream] comes after it and is still a dictionary. *)
Definition cfg_convert (cfg : Config) (configured : gmap string Handler)
  (value : string) : option item :=
  match strip_prefix "cfg://handlers." value with
  | Some name =>
      match configured !! name with
      | Some h => Some (Instance h)
      | None =>
          if String.eqb name "stream" then Some (Dict (stream (handlers cfg)))
          else if String.eqb name "queue_handler" then Some Other
          else None
      end
  | None => None
  end.

(** [Logger.addHandler]: a handler that is attached already is not added
    again. *)
Definition addHandler (h : string * AnyHandler)
  (hs : list (string * AnyHandler)) : list (string * AnyHandler) :=
  if bool_decide (h.1 ∈ hs.*1) then hs else hs ++ [h].

Definition dictConfig (cfg : Config) (w : World) : option World :=
  app ← configure_handler cfg "app_handler" (app_handler (handlers cfg));
  dbg ← configure_handler cfg "debug_handler" (debug_handler (handlers cfg));
  err ← configure_handler cfg "error_handler" (error_handler (handlers cfg));
  let configured : gmap string Handler :=
    {[ "app_handler" := app; "debug_handler" := dbg;
       "error_handler" := err ]} in
  '(qh, w) ← QueueListenerHandler_init
               (ConvertingList (qs_handlers (queue_handler (handlers cfg)))
                               (cfg_convert cfg configured))
               true true None w;
  str ← configure_handler cfg "stream" (stream (handlers cfg));
  let all : gmap string AnyHandler :=
    <["stream" := Direct str]>
      (<["queue_handler" := Queued qh]> (Direct <$> configured)) in
  attached ← mapM (fun n => pair n <$> all !! n)
                  (ls_handlers (root_logger cfg));
  Some (set_root {| l_level := ls_level (root_logger cfg);
                    l_handlers := foldl (fun hs h => addHandler h hs)
                                        [] attached;
                    l_propagate := ls_propagate (root_logger cfg) |} w).

(** *** [init] *)

Definition debug_ref : string := "cfg://handlers.debug_handler".

Definition set_stream_level (level : Z) (cfg : Config) : Config :=
  let hs := handlers cfg in
  let s := stream hs in
  {| version := version cfg;
     disable_existing_loggers := disable_existing_loggers cfg;
     formatters := formatters cfg;
     filters := filters cfg;
     handlers := {|
       stream := {| hs_class := hs_class s; hs_formatter := hs_formatter s;
                    hs_level := level; hs_filters := hs_filters s;
                    hs_stream := hs_stream s; hs_filename := hs_filename s;
                    hs_mode := hs_mode s |};
       app_handler := app_handler hs;
       debug_handler := debug_handler hs;
       error_handler := error_handler hs;
       queue_handler := queue_handler hs |};
     root_logger := root_logger cfg |}.

Definition set_queue_handlers (l : list string) (cfg : Config) : Config :=
  let hs := handlers cfg in
  {| version := version cfg;
     disable_existing_loggers := disable_existing_loggers cfg;
     formatters := formatters cfg;
     filters := filters cfg;
     handlers := {|
       stream := stream hs;
       app_handler := app_handler hs;
       debug_handler := debug_handler hs;
       error_handler := error_handler hs;
       queue_handler := {| qs_handlers := l |} |};
     root_logger := root_logger cfg |}.

Definition set_root_logger (r : LoggerSpec) (cfg : Config) : Config :=
  {| version := version cfg;
     disable_existing_loggers := disable_existing_loggers cfg;
     formatters := formatters cfg;
     filters := filters cfg;
     handlers := handlers cfg;
     root_logger := r |}.

Definition set_disable_existing_loggers (b : bool) (cfg : Config) : Config :=
  {| version := version cfg;
     disable_existing_loggers := b;
     formatters := formatters cfg;
     filters := filters cfg;
     handlers := handlers cfg;
     root_logger := root_logger cfg |}.

Definition init (app_name : string) (level : Z)
  (disable_existing_loggers propagate console : bool) (w : World)
  : option World :=
  let cfg := logging_config w in
  let cfg := set_stream_level level cfg in
  let cfg := set_root_logger
               {| ls_handlers := ls_handlers (root_logger cfg);
                  ls_level := level;
                  ls_propagate := ls_propagate (root_logger cfg) |} cfg in
  let cfg :=
    if (level =? DEBUG)%Z
       && bool_decide (debug_ref ∉ qs_handlers (queue_handler (handlers cfg)))
    then set_queue_handlers
           (qs_handlers (queue_handler (handlers cfg)) ++ [debug_ref]) cfg
    else cfg in
  let cfg :=
    if console && bool_decide ("stream" ∉ ls_handlers (root_logger cfg))
    then set_root_logger
           {| ls_handlers := ls_handlers (root_logger cfg) ++ ["stream"];
              ls_level := ls_level (root_logger cfg);
              ls_propagate := ls_propagate (root_logger cfg) |} cfg
    else cfg in
  let cfg := set_root_logger
               {| ls_handlers := ls_handlers (root_logger cfg);
                  ls_level := ls_level (root_logger cfg);
                  ls_propagate := propagate |} cfg in
  let cfg := set_disable_existing_loggers disable_existing_loggers cfg in
  dictConfig cfg (set_logging_config cfg w).

(** *** Emitting and delivering a record *)

(** [QueueHandler.emit]: the record is put on the queue without waiting;
    when the queue is full the error is handled inside the handler and the
    record is lost.  ([QueueHandler.prepare] merges the message and clears
    the exception and stack information, which leaves a record of this
    model as it is.) *)
Definition QueueHandler_emit (qh : QueueListenerHandler)
  (record : LogRecord) (w : World) : World :=
  default w (put_nowait (queue qh) record w).

Definition AnyHandler_level (h : AnyHandler) : Z :=
  match h with
  | Direct h => h_level h
  | Queued _ => NOTSET
  end.

(** [Logger.callHandlers] on a logger whose records reach the handlers of
    the root logger: each handler whose level admits the record handles it,
    in the thread of the caller. *)
Definition callHandlers (record : LogRecord) (w : World) : World :=
  foldl (fun w h =>
           if (AnyHandler_level h.2 <=? levelno record)%Z then
             match h.2 with
             | Direct h => perform (Handler_handle h record) w
             | Queued qh => QueueHandler_emit qh record w
             end
           else w)
        w (l_handlers (root w)).

(** [Logger.isEnabledFor] on a logger without a level of its own, such as
    [logging.getLogger(__name__)]: the effective level is the level of the
    root logger, and the threshold of [logging.disable], which nothing here
    calls, is 0. *)
Definition isEnabledFor (level : Z) (w : World) : bool :=
  if (level <=? 0)%Z then false else (l_level (root w) <=? level)%Z.

(** A logging call on such a logger: the record is created and handled
    when the logger is enabled for its level. *)
Definition Logger_log (record : LogRecord) (w : World) : World :=
  if isEnabledFor (levelno record) w then callHandlers record w else w.

(** [QueueListener.handle]: the lines the listener writes for a record.
    [None]: a position of the handler list is not a handler and the thread
    raises. *)
Definition QueueListener_handle (l : QueueListener) (record : LogRecord)
  : option (list (Sink * line)) :=
  mjoin <$>
    mapM (fun it =>
            match it with
            | Instance h =>
                Some (if negb (respect_handler_level l)
                         || (h_level h <=? levelno record)%Z
                      then Handler_handle h record
                      else [])
            | _ => None
            end) (ql_handlers l).

(** One turn of the loop of a listener thread: take the oldest record off
    the queue and hand it to the handlers.  [None]: the queue is empty and
    the thread waits, or the thread raised. *)
Definition listener_step (l : QueueListener) (w : World) : option World :=
  '(record, w) ← get (ql_queue l) w;
  outs ← QueueListener_handle l record;
  Some (perform outs w).

(** *** Histories of the process

    What happens in the process after the import: calls of [init], logging
    calls in the application threads, and turns of the listener threads,
    in some interleaving.  [Deliver i] is a turn of the [i]-th listener
    thread that was started. *)

Inductive event :=
| Init (app_name : string) (level : Z)
       (disable_existing_loggers propagate console : bool)
| Log (record : LogRecord)
| Deliver (thread : nat).

Definition step (e : event) (w : World) : option World :=
  match e with
  | Init app_name level disable propagate console =>
      init app_name level disable propagate console w
  | Log record => Some (Logger_log record w)
  | Deliver i => l ← threads w !! i; listener_step l w
  end.

(** [None]: a call of [init] raised, or a listener was asked for a turn it
    cannot take. *)
Definition exec (history : list event) (w : World) : option World :=
  foldl (fun ow e => ow ≫= step e) (Some w) history.

(** Whether some call of [init] in the history passed [level = DEBUG],
    passed [console = True], and whether there was a call at all. *)
Definition debug_seen (history : list event) : bool :=
  existsb (fun e => match e with
                    | Init _ level _ _ _ => (level =? DEBUG)%Z
                    | _ => false
                    end) history.

Definition console_seen (history : list event) : bool :=
  existsb (fun e => match e with
                    | Init _ _ _ _ console => console
                    | _ => false
                    end) history.

Definition init_seen (history : list event) : bool :=
  existsb (fun e => match e with Init _ _ _ _ _ => true | _ => false end)
          history.

(** The same history with other application names. *)
Definition with_app_name (f : string -> string) (e : event) : event :=
  match e with
  | Init app_name level disable propagate console =>
      Init (f app_name) level disable propagate console
  | _ => e
  end.

(** *** Observations *)

(** The content of a log file; a file that does not exist has no line. *)
Definition file_content (f : string) (w : World) : list line :=
  default [] (files w !! f).

(** The lines among [outs] that go to a given sink. *)
Definition Sink_eqb (a b : Sink) : bool :=
  match a, b with
  | Stdout, Stdout => true
  | LogFile f, LogFile g => String.eqb f g
  | Stream s, Stream t => String.eqb s t
  | _, _ => false
  end.

Definition lines_to (s : Sink) (outs : list (Sink * line)) : list line :=
  (filter (fun out => Sink_eqb out.1 s = true) outs).*2.

(** The field names of a line; a line that is not a JSON object has none. *)
Definition line_keys (l : line) : option (list string) :=
  match l with
  | JsonLine (JObj fields) => Some fields.*1
  | _ => None
  end.

Definition line_get (k : string) (l : line) : option json :=
  match l with
  | JsonLine j => json_get k j
  | StrFormatLine _ => None
  end.

(** The references the entry of the queue handler lists. *)
Definition queue_handlers (w : World) : list string :=
  qs_handlers (queue_handler (handlers (logging_config w))).

(** The names of the handlers attached to the root logger. *)
Definition attached (w : World) : list string := (l_handlers (root w)).*1.

Definition app_log : string := "logs/app.log".
Definition errors_log : string := "logs/errors.log".
Definition debug_log : string := "logs/debug.log".

Definition compact_fields : list string :=
  ["asctime"; "name"; "levelname"; "message"].

Definition verbose_fields : list string :=
  ["asctime"; "name"; "levelname"; "pathname"; "lineno"; "funcName";
   "message"].

End logging_module.

(** ** The objects the configurations of this module yield

    Every configuration [init] produces differs from [LOGGING_CONFIG] in the
    level, in the two flags, and in whether the debug handler and the stream
    handler have been added.  [config_of] is the configuration for given
    values of those, and the definitions before it are the handlers, the
    listener and the root logger [dictConfig] builds from it (see
    [dictConfig_config_of]). *)

Module configured.
Import logging_module.

Definition json_format : string :=
  "%(asctime)s %(name)-12s %(levelname)-4s %(message)s".

Definition debug_json_format : string :=
  "%(asctime)s %(name)-12s %(levelname)-4s %(pathname)s %(lineno)d %(funcName)s %(message)s".

Definition app_h : Handler := {|
  h_name := "app_handler";
  h_level := INFO;
  h_filters := [InfoFilter];
  h_formatter := JsonFormatter json_format;
  h_sink := LogFile app_log |}.

Definition error_h : Handler := {|
  h_name := "error_handler";
  h_level := WARNING;
  h_filters := [];
  h_formatter := JsonFormatter debug_json_format;
  h_sink := LogFile errors_log |}.

Definition debug_h : Handler := {|
  h_name := "debug_handler";
  h_level := DEBUG;
  h_filters := [];
  h_formatter := JsonFormatter debug_json_format;
  h_sink := LogFile debug_log |}.

Definition stream_h (level : Z) : Handler := {|
  h_name := "stream";
  h_level := level;
  h_filters := [];
  h_formatter := JsonFormatter debug_json_format;
  h_sink := Stdout |}.

Definition listener_of (q : nat) (dbg : bool) : QueueListener := {|
  ql_queue := q;
  ql_handlers :=
    Instance app_h :: Instance error_h
      :: (if dbg then [Instance debug_h] else []);
  respect_handler_level := true |}.

Definition queue_handler_of (q : nat) (dbg : bool) : QueueListenerHandler := {|
  queue := q;
  _listener := listener_of q dbg |}.

Definition root_of (q : nat) (level : Z) (dbg con prop : bool) : Logger := {|
  l_level := level;
  l_handlers :=
    ("queue_handler", Queued (queue_handler_of q dbg))
      :: (if con then [("stream", Direct (stream_h level))] else []);
  l_propagate := prop |}.

Definition config_of (level : Z) (dbg con dis prop : bool) : Config := {|
  version := 1;
  disable_existing_loggers := dis;
  formatters := formatters LOGGING_CONFIG;
  filters := filters LOGGING_CONFIG;
  handlers := {|
    stream := {|
      hs_class := "logging.StreamHandler";
      hs_formatter := "debug_json";
      hs_level := level;
      hs_filters := [];
      hs_stream := Some "ext://sys.stdout";
      hs_filename := None;
      hs_mode := None |};
    app_handler := app_handler (handlers LOGGING_CONFIG);
    debug_handler := debug_handler (handlers LOGGING_CONFIG);
    error_handler := error_handler (handlers LOGGING_CONFIG);
    queue_handler := {|
      qs_handlers :=
        "cfg://handlers.app_handler" :: "cfg://handlers.error_handler"
          :: (if dbg then [debug_ref] else []) |}
  |};
  root_logger := {|
    ls_handlers := "queue_handler" :: (if con then ["stream"] else []);
    ls_level := level;
    ls_propagate := prop |}
|}.

(** The world [init] leaves behind when it is called in [w] with a
    configuration that becomes [config_of level dbg con dis prop]. *)
Definition after_init (level : Z) (dbg con dis prop : bool) (w : World)
  : World :=
  let q := default_queue w in
  set_root (root_of q level dbg con prop)
    (set_threads (threads w ++ [listener_of q dbg])
       (set_logging_config (config_of level dbg con dis prop) w)).

(** The lines a listener with these handlers writes for a record. *)
Definition compact_line (record : LogRecord) : line :=
  JsonLine (JsonFormatter_format json_format record).

Definition verbose_line (record : LogRecord) : line :=
  JsonLine (JsonFormatter_format debug_json_format record).

Definition routed (dbg : bool) (record : LogRecord) : list (Sink * line) :=
  (if (levelno record =? INFO)%Z
   then [(LogFile app_log, compact_line record)] else [])
  ++ (if (WARNING <=? levelno record)%Z
      then [(LogFile errors_log, verbose_line record)] else [])
  ++ (if dbg && (DEBUG <=? levelno record)%Z
      then [(LogFile debug_log, verbose_line record)] else []).

(** [w'] has the setup of [w]: the same configuration, default queue,
    root logger and threads, and the same queue objects with the same
    capacities; records in the queues and lines in the sinks may differ. *)
Record same_setup (w w' : World) : Prop := {
  same_config : logging_config w' = logging_config w;
  same_default_queue : default_queue w' = default_queue w;
  same_root : root w' = root w;
  same_threads : threads w' = threads w;
  same_queues : forall q, maxsize <$> heap w' !! q = maxsize <$> heap w !! q
}.

(** What holds in every world the process can be in after [history]. *)
Record invariant (history : list event) (w : World) : Prop := {
  inv_config : exists level dis prop,
    logging_config w
    = config_of level (debug_seen history) (console_seen history) dis prop
    /\ root w
       = if init_seen history
         then root_of 0 level (debug_seen history) (console_seen history) prop
         else root import_module;
  inv_default_queue : default_queue w = 0%nat;
  inv_capacity : maxsize <$> heap w !! 0%nat = Some 1000;
  inv_threads : Forall (fun l => exists dbg, l = listener_of 0 dbg) (threads w);
  inv_listener :
    init_seen history = true ->
    last (threads w) = Some (listener_of 0 (debug_seen history))
}.

End configured.

(** ** Sample runs *)

Module samples.
Import logging_module configured.

Definition sample_record (level : Z) (msg : string) : LogRecord := {|
  asctime := "2024-05-01 10:00:00,000";
  name := "__main__";
  levelno := level;
  pathname := "test_Logging.py";
  lineno := 18;
  funcName := "<module>";
  message := msg;
  extra := [] |}.

Definition info_record : LogRecord := sample_record INFO "started".
Definition warning_record : LogRecord := sample_record WARNING "disk is filling up".

(** The world a history leads to from the import; the import itself when
    the history cannot run. *)
Definition world_after (history : list event) : World :=
  default import_module (exec history import_module).

(** The world after the oldest record has been taken off a queue. *)
Definition world_after_get (q : nat) (w : World) : World :=
  match get q w with
  | Some (_, w') => w'
  | None => w
  end.

(** The call of [test_Logging.py]. *)
Definition test_init : list event :=
  [Init "test" DEBUG false false true].

(** The record [logger.debug("hello first error")] creates; the time, the
    logger name and the source location are those of the run. *)
Definition test_record (time logger path func : string) (line_number : Z)
  : LogRecord := {|
  asctime := time;
  name := logger;
  levelno := DEBUG;
  pathname := path;
  lineno := line_number;
  funcName := func;
  message := "hello first error";
  extra := [] |}.

(** One call of [init] with the default arguments. *)
Definition one_init : list event :=
  [Init "test" INFO false false true].

(** One call of [init] and one WARNING record waiting in the queue. *)
Definition one_warning : list event :=
  [Init "test" INFO false false true; Log warning_record].

(** One call of [init] and one INFO record waiting in the queue. *)
Definition one_info : list event :=
  [Init "app" INFO false false true; Log info_record].

(** Console logging switched on by a first call and not asked for in a
    second one. *)
Definition console_then_not : list event :=
  [Init "app" INFO false false true; Init "app" INFO false false false].

(** A run that leaves lines in every sink. *)
Definition busy : list event :=
  [Init "app" DEBUG false false true;
   Log warning_record; Deliver 0;
   Log info_record; Deliver 0].

(** A queue handler without downstream handlers, built with the default
    queue, and the world after one and after two of them were built. *)
Definition bare_listener : QueueListener := {|
  ql_queue := 0;
  ql_handlers := [];
  respect_handler_level := true |}.

Definition bare_handler : QueueListenerHandler := {|
  queue := 0;
  _listener := bare_listener |}.

Definition one_bare : World := start bare_listener import_module.
Definition two_bare : World := start bare_listener one_bare.

End samples.

(** Closed statements about sample runs are settled by evaluation. *)
Ltac by_evaluation :=
  repeat match goal with |- _ /\ _ => split end; vm_compute; reflexivity.

(** ** Further observations on the process *)

Module observations.
Import logging_module configured samples.

(** [QueueListenerHandler.start]: the listener of the handler is started. *)
Definition QueueListenerHandler_start (self : QueueListenerHandler)
  (w : World) : World :=
  start (_listener self) w.

(** The records waiting in a queue, oldest first; none when there is no
    queue at the address. *)
Definition waiting (q : nat) (w : World) : list LogRecord :=
  default [] (items <$> heap w !! q).

(** The names under which the extra attributes of a record appear in a
    line, in order: those [merge_record_extra] copies, each once. *)
Definition add_name (names : list string) (key : string) : list string :=
  if bool_decide (key ∈ names) then names else names ++ [key].

Definition extra_names (record : LogRecord) : list string :=
  foldl add_name []
        (filter (fun key => merged RESERVED_ATTRS key = true)
                (extra record).*1).

(** Where the records and the lines of a state come from: every record
    waiting in a queue was logged in the history, every line of [app.log] is
    the compact line of a record that was logged, and every line of
    [errors.log], of [debug.log] and of the console is the verbose line of
    one. *)
Record lines_from (history : list event) (w : World) : Prop := {
  from_waiting :
    forall q, Forall (fun r => Log r ∈ history) (waiting q w);
  from_app :
    Forall (fun l => exists r, Log r ∈ history /\ l = compact_line r)
           (file_content app_log w);
  from_errors :
    Forall (fun l => exists r, Log r ∈ history /\ l = verbose_line r)
           (file_content errors_log w);
  from_debug :
    Forall (fun l => exists r, Log r ∈ history /\ l = verbose_line r)
           (file_content debug_log w);
  from_stdout :
    Forall (fun l => exists r, Log r ∈ history /\ l = verbose_line r)
           (stdout w)
}.

(** No bounded queue holds more records than its capacity. *)
Definition within_capacity (w : World) : Prop :=
  forall q qu,
    heap w !! q = Some qu ->
    (0 < maxsize qu)%Z ->
    (Z.of_nat (length (items qu)) <= maxsize qu)%Z.

(** The number of calls of [init] in a history. *)
Definition is_init (e : event) : bool :=
  match e with
  | Init _ _ _ _ _ => true
  | _ => false
  end.

Definition count_inits (history : list event) : nat :=
  length (filter (fun e => is_init e = true) history).

(** The level and the two flags of the last call of [init] in a history:
    level, [disable_existing_loggers], [propagate]. *)
Definition last_init (history : list event) : option (Z * bool * bool) :=
  foldl (fun acc e => match e with
                      | Init _ level disable propagate _ =>
                          Some (level, disable, propagate)
                      | _ => acc
                      end) None history.

(** Sample runs and objects. *)

(** A record at a level of the application's own, between INFO and
    WARNING. *)
Definition notice_record : LogRecord := sample_record 25 "notice".

Definition one_notice : list event :=
  [Init "app" DEBUG false false true; Log notice_record].

(** Debug logging switched on by a first call, and a second call at level
    INFO. *)
Definition debug_then_info : list event :=
  [Init "app" DEBUG false false false; Init "app" INFO false false false].

(** Three records waiting for the one listener. *)
Definition three_waiting : list event :=
  [Init "app" INFO false false false;
   Log warning_record; Log info_record;
   Log (sample_record ERROR "disk is full")].

(** A call without console and a record logged after it. *)
Definition quiet : list event :=
  [Init "app" INFO false false false; Log info_record; Deliver 0].


(** A first call at level INFO, a switch to debug mode, and a DEBUG record
    waiting. *)
Definition late_debug : list event :=
  [Init "app" INFO false false false;
   Init "app" DEBUG false false false;
   Log (sample_record DEBUG "details")].

(** A record logged with an extra attribute, and a run that delivers
    it. *)
Definition bob_record : LogRecord := {|
  asctime := "2024-05-01 10:00:00,000";
  name := "__main__";
  levelno := INFO;
  pathname := "test_Logging.py";
  lineno := 18;
  funcName := "<module>";
  message := "started";
  extra := [("user", JStr "bob")] |}.

Definition with_extra : list event :=
  [Init "app" INFO false false true; Log bob_record; Deliver 0].

(** The entry of a stream handler on standard error. *)
Definition stderr_spec : HandlerSpec := {|
  hs_class := "logging.StreamHandler";
  hs_formatter := "debug_json";
  hs_level := WARNING;
  hs_filters := ["info_filter"];
  hs_stream := Some "ext://sys.stderr";
  hs_filename := None;
  hs_mode := None |}.

(** A queue of the handler's own, next to the default one. *)
Definition with_private_queue : World := (Queue_new 5 import_module).2.

Definition private_listener : QueueListener := {|
  ql_queue := 1;
  ql_handlers := [];
  respect_handler_level := true |}.

Definition private_handler : QueueListenerHandler := {|
  queue := 1;
  _listener := private_listener |}.

End observations.

(** * Properties of the router *)

Section router_facts.
Import get_router app.

Lemma parse_show_int (z : Z) : parse_int (show_int z) = Some z.
Proof.
  unfold parse_int, show_int.
  rewrite NilZero.isi.
  - simpl. f_equal. apply DecimalZ.of_to.
  - destruct z; simpl; try discriminate.
    intros [= H]. now apply Unsigned.to_uint_nonnil in H.
  - destruct z; simpl; try discriminate.
    intros [= H]. now apply Unsigned.to_uint_nonnil in H.
Qed.

Lemma split_on_digits (d : Decimal.uint) :
  split_on "/" (NilEmpty.string_of_uint d) = [NilEmpty.string_of_uint d].
Proof. induction d; simpl; try rewrite IHd; reflexivity. Qed.

Lemma split_on_show_int (z : Z) : split_on "/" (show_int z) = [show_int z].
Proof.
  unfold show_int.
  destruct (Z.to_int z) as [d|d]; simpl.
  - destruct d; try apply split_on_digits. reflexivity.
  - assert (H : split_on "/" (NilZero.string_of_uint d)
                = [NilZero.string_of_uint d]).
    { destruct d; try apply split_on_digits. reflexivity. }
    now rewrite H.
Qed.

Lemma show_int_nonempty (z : Z) : String.eqb (show_int z) "" = false.
Proof.
  destruct (String.eqb_spec (show_int z) "") as [E|]; [|reflexivity].
  pose proof (parse_show_int z) as H. rewrite E in H. discriminate.
Qed.

Lemma segments_items (x : string) :
  segments ("/items/" +:+ x) = Some ("items" :: split_on "/" x).
Proof. reflexivity. Qed.

Lemma match_items (x : string) :
  String.eqb x "" = false ->
  match_path [Lit "items"; Param "item_id"] ["items"; x] = Some [x].
Proof. intros H. simpl. now rewrite H. Qed.

Lemma GET_items (item_id : Z) (q : option string) :
  GET {| url_path := "/items/" +:+ show_int item_id; query_q := q |}
  = Ok200 (read_item item_id q).
Proof.
  unfold GET, url_path, query_q.
  rewrite segments_items, split_on_show_int.
  unfold app, include_router, router, dispatch, path, handler.
  rewrite app_nil_l.
  change (match_path [Lit ""] ["items"; show_int item_id]) with (@None (list string)).
  change (match_path [Lit "Animal"] ["items"; show_int item_id])
    with (@None (list string)).
  rewrite match_items by apply show_int_nonempty.
  unfold call. now rewrite parse_show_int.
Qed.

Example GET_root :
  GET {| url_path := "/"; query_q := None |} = Ok200 read_root.
Proof. reflexivity. Qed.

Example GET_items_not_a_number :
  GET {| url_path := "/items/abc"; query_q := None |} = Unprocessable422.
Proof. reflexivity. Qed.

Example GET_items_no_parameter :
  GET {| url_path := "/items/"; query_q := None |} = NotFound404.
Proof. reflexivity. Qed.

Example GET_items_negative :
  GET {| url_path := "/items/-7"; query_q := Some "x" |}
  = Ok200 (JObj [("item_id", JInt (-7)); ("q", JStr "x")]).
Proof. reflexivity. Qed.

End router_facts.

(** * Properties of the logging module *)

Section logging_facts.
Import logging_module configured observations.

Lemma LOGGING_CONFIG_config_of :
  LOGGING_CONFIG = config_of INFO false false true false.
Proof. reflexivity. Qed.

Lemma dictConfig_config_of level dbg con dis prop w :
  dictConfig (config_of level dbg con dis prop) w
  = Some (set_root (root_of (default_queue w) level dbg con prop)
            (set_threads (threads w ++ [listener_of (default_queue w) dbg]) w)).
Proof. destruct dbg, con; reflexivity. Qed.

Lemma init_config_of a level d p c lv dbg con dis prop w :
  logging_config w = config_of lv dbg con dis prop ->
  init a level d p c w
  = Some (after_init level (dbg || (level =? DEBUG)%Z) (con || c) d p w).
Proof.
  intros H. unfold init. rewrite H.
  destruct (level =? DEBUG)%Z, dbg, con, c; reflexivity.
Qed.

(** Framing: writing a line, putting and getting a record keep the setup. *)

Lemma same_setup_refl w : same_setup w w.
Proof. by split. Qed.

Lemma same_setup_trans w1 w2 w3 :
  same_setup w1 w2 -> same_setup w2 w3 -> same_setup w1 w3.
Proof.
  intros [c1 d1 r1 t1 h1] [c2 d2 r2 t2 h2]. split; [congruence..|].
  intros q. by rewrite h2.
Qed.

Lemma write_same_setup out w : same_setup w (write out w).
Proof. unfold write. by destruct (out.1); split. Qed.

Lemma perform_same_setup outs w : same_setup w (perform outs w).
Proof.
  revert w. induction outs as [|out outs IH]; intros w; simpl.
  - apply same_setup_refl.
  - eapply same_setup_trans; [apply write_same_setup | apply IH].
Qed.

Lemma put_nowait_same_setup q record w w' :
  put_nowait q record w = Some w' -> same_setup w w'.
Proof.
  unfold put_nowait. destruct (heap w !! q) as [qu|] eqn:Hq; [|done].
  case_match; [done|]. intros [= <-]. split; try done.
  intros q'. simpl. destruct (decide (q = q')) as [<-|Hne].
  - by rewrite lookup_insert_eq, Hq.
  - by rewrite lookup_insert_ne.
Qed.

Lemma get_same_setup q record w w' :
  get q w = Some (record, w') -> same_setup w w'.
Proof.
  unfold get. destruct (heap w !! q) as [qu|] eqn:Hq; [|done].
  destruct (items qu); [done|]. intros [= <- <-]. split; try done.
  intros q'. simpl. destruct (decide (q = q')) as [<-|Hne].
  - by rewrite lookup_insert_eq, Hq.
  - by rewrite lookup_insert_ne.
Qed.

Lemma QueueHandler_emit_same_setup qh record w :
  same_setup w (QueueHandler_emit qh record w).
Proof.
  unfold QueueHandler_emit.
  destruct (put_nowait _ _ _) eqn:H; simpl.
  - by eapply put_nowait_same_setup.
  - apply same_setup_refl.
Qed.

Lemma callHandlers_same_setup record w : same_setup w (callHandlers record w).
Proof.
  unfold callHandlers. generalize (l_handlers (root w)) as hs.
  intros hs. revert w. induction hs as [|h hs IH]; intros w; simpl.
  - apply same_setup_refl.
  - eapply same_setup_trans; [|apply IH].
    case_match; [|apply same_setup_refl].
    destruct (h.2).
    + apply perform_same_setup.
    + apply QueueHandler_emit_same_setup.
Qed.

Lemma Logger_log_same_setup record w : same_setup w (Logger_log record w).
Proof.
  unfold Logger_log. case_match.
  - apply callHandlers_same_setup.
  - apply same_setup_refl.
Qed.

Lemma listener_step_same_setup l w w' :
  listener_step l w = Some w' -> same_setup w w'.
Proof.
  unfold listener_step. intros H.
  destruct (get (ql_queue l) w) as [[record w1]|] eqn:Hg; [|done].
  simpl in H. destruct (QueueListener_handle l record) as [outs|]; [|done].
  simpl in H. injection H as <-.
  eapply same_setup_trans; [by eapply get_same_setup|].
  apply perform_same_setup.
Qed.

(** Histories *)

Lemma exec_snoc history e w :
  exec (history ++ [e]) w = exec history w ≫= step e.
Proof. unfold exec. by rewrite foldl_app. Qed.

Lemma debug_seen_snoc history e :
  debug_seen (history ++ [e])
  = debug_seen history
    || match e with Init _ level _ _ _ => (level =? DEBUG)%Z | _ => false end.
Proof. unfold debug_seen. rewrite existsb_app. simpl. by rewrite orb_false_r. Qed.

Lemma console_seen_snoc history e :
  console_seen (history ++ [e])
  = console_seen history
    || match e with Init _ _ _ _ console => console | _ => false end.
Proof. unfold console_seen. rewrite existsb_app. simpl. by rewrite orb_false_r. Qed.

Lemma init_seen_snoc history e :
  init_seen (history ++ [e])
  = init_seen history
    || match e with Init _ _ _ _ _ => true | _ => false end.
Proof. unfold init_seen. rewrite existsb_app. simpl. by rewrite orb_false_r. Qed.

Lemma invariant_same_setup history e w w' :
  match e with Init _ _ _ _ _ => False | _ => True end ->
  same_setup w w' -> invariant history w -> invariant (history ++ [e]) w'.
Proof.
  intros He [Hc Hq Hr Ht Hh] [Hcfg Hdq Hcap Hth Hl].
  assert (debug_seen (history ++ [e]) = debug_seen history) as Ed.
  { rewrite debug_seen_snoc. destruct e; try done; apply orb_false_r. }
  assert (console_seen (history ++ [e]) = console_seen history) as Ec.
  { rewrite console_seen_snoc. destruct e; try done; apply orb_false_r. }
  assert (init_seen (history ++ [e]) = init_seen history) as Ei.
  { rewrite init_seen_snoc. destruct e; try done; apply orb_false_r. }
  split; rewrite ?Ed, ?Ec, ?Ei, ?Hc, ?Hq, ?Hr, ?Ht, ?Hh; done.
Qed.

Lemma invariant_init history a level d p c w w' :
  invariant history w ->
  init a level d p c w = Some w' ->
  invariant (history ++ [Init a level d p c]) w'
  /\ w' = after_init level (debug_seen (history ++ [Init a level d p c]))
                     (console_seen (history ++ [Init a level d p c])) d p w.
Proof.
  intros [(lv & dis & prop & Hcfg & Hroot) Hdq Hcap Hth Hl] Hi.
  rewrite (init_config_of _ _ _ _ _ _ _ _ _ _ _ Hcfg) in Hi.
  injection Hi as <-.
  rewrite debug_seen_snoc, console_seen_snoc. split; [|done].
  split; rewrite ?debug_seen_snoc, ?console_seen_snoc, ?init_seen_snoc;
    simpl; rewrite ?Hdq; try done.
  - exists level, d, p. by rewrite orb_true_r.
  - apply Forall_app. split; [done|]. apply Forall_singleton. by eexists.
  - intros _. by rewrite last_snoc.
Qed.

Lemma invariant_import : invariant [] import_module.
Proof.
  split; first [done | by exists INFO, true, false | by constructor].
Qed.

(** Every world the process reaches satisfies the invariant. *)
Lemma exec_invariant history w :
  exec history import_module = Some w -> invariant history w.
Proof.
  revert w. induction history as [|e history IH] using rev_ind; intros w.
  - intros [= <-]. apply invariant_import.
  - rewrite exec_snoc.
    destruct (exec history import_module) as [w0|]; [|done]. simpl.
    specialize (IH w0 eq_refl). destruct e as [a level d p c|record|i]; simpl.
    + intros H. by destruct (invariant_init _ _ _ _ _ _ _ _ IH H).
    + intros [= <-].
      apply (invariant_same_setup _ _ w0); [done| |done].
      apply Logger_log_same_setup.
    + intros H. destruct (threads w0 !! i) as [l|]; [|done]. simpl in H.
      apply (invariant_same_setup _ _ w0); [done| |done].
      by eapply listener_step_same_setup.
Qed.

(** [init] returns in every world the process reaches. *)
Lemma init_returns history w a level d p c :
  exec history import_module = Some w ->
  init a level d p c w
  = Some (after_init level (debug_seen history || (level =? DEBUG)%Z)
                     (console_seen history || c) d p w).
Proof.
  intros H. apply exec_invariant in H as [(lv & dis & prop & Hcfg & _) _ _ _ _].
  by eapply init_config_of.
Qed.

(** The effect of delivering and of logging *)

Lemma QueueListener_handle_listener_of q dbg record :
  QueueListener_handle (listener_of q dbg) record = Some (routed dbg record).
Proof.
  unfold QueueListener_handle, routed, compact_line, verbose_line.
  destruct dbg; simpl; unfold Handler_handle, Handler_format; simpl;
    unfold InfoFilter_filter, INFO, WARNING, DEBUG;
    repeat match goal with
      | |- context [(?a <=? ?b)%Z] => destruct (Z.leb_spec a b)
      | |- context [(?a =? ?b)%Z] => destruct (Z.eqb_spec a b)
      end; simpl; first [reflexivity | lia].
Qed.

Lemma write_file_content f out w :
  file_content f (write out w)
  = file_content f w ++ lines_to (LogFile f) [out].
Proof.
  unfold write, file_content, lines_to. destruct out as [[|g|t] l]; simpl.
  - by rewrite app_nil_r.
  - destruct (String.eqb_spec g f) as [->|Hne].
    + rewrite lookup_insert_eq. simpl.
      rewrite filter_cons_True by (simpl; apply String.eqb_refl). done.
    + rewrite lookup_insert_ne by done.
      rewrite filter_cons_False; [by rewrite app_nil_r|].
      simpl. by rewrite (proj2 (String.eqb_neq g f) Hne).
  - by rewrite app_nil_r.
Qed.

Lemma lines_to_app s outs1 outs2 :
  lines_to s (outs1 ++ outs2) = lines_to s outs1 ++ lines_to s outs2.
Proof. unfold lines_to. by rewrite filter_app, fmap_app. Qed.

Lemma perform_file_content f outs w :
  file_content f (perform outs w) = file_content f w ++ lines_to (LogFile f) outs.
Proof.
  revert w. induction outs as [|out outs IH]; intros w; simpl.
  - by rewrite app_nil_r.
  - rewrite IH, write_file_content, <- app_assoc. f_equal.
    by rewrite <- lines_to_app.
Qed.

Lemma write_stdout out w :
  stdout (write out w) = stdout w ++ lines_to Stdout [out].
Proof.
  unfold write, lines_to. destruct out as [[|g|t] l]; simpl; [done| |];
    by rewrite app_nil_r.
Qed.

Lemma perform_stdout outs w :
  stdout (perform outs w) = stdout w ++ lines_to Stdout outs.
Proof.
  revert w. induction outs as [|out outs IH]; intros w; simpl.
  - by rewrite app_nil_r.
  - rewrite IH, write_stdout, <- app_assoc. f_equal.
    by rewrite <- lines_to_app.
Qed.

Lemma get_sinks q record w w' :
  get q w = Some (record, w') -> files w' = files w /\ stdout w' = stdout w.
Proof.
  unfold get. destruct (heap w !! q) as [qu|]; [|done].
  destruct (items qu); [done|]. by intros [= <- <-].
Qed.

Lemma QueueHandler_emit_sinks qh record w :
  files (QueueHandler_emit qh record w) = files w
  /\ stdout (QueueHandler_emit qh record w) = stdout w.
Proof.
  unfold QueueHandler_emit, put_nowait.
  destruct (heap w !! queue qh) as [qu|]; [|done].
  by case_match.
Qed.

(** A turn of a listener built by [init]: it takes the oldest record and
    writes the lines [routed] lists. *)
Lemma listener_step_listener_of q dbg w record w1 :
  get q w = Some (record, w1) ->
  listener_step (listener_of q dbg) w = Some (perform (routed dbg record) w1).
Proof.
  intros H. unfold listener_step. simpl. rewrite H. simpl.
  by rewrite QueueListener_handle_listener_of.
Qed.

Lemma listener_step_inv q dbg w w' :
  listener_step (listener_of q dbg) w = Some w' ->
  exists record w1,
    get q w = Some (record, w1) /\ w' = perform (routed dbg record) w1.
Proof.
  unfold listener_step. simpl.
  destruct (get q w) as [[record w1]|] eqn:H; [|done]. simpl.
  rewrite QueueListener_handle_listener_of. simpl. intros [= <-]. eauto.
Qed.

(** A logging call under the root logger [init] configures: the record
    goes to the queue, and to the console when the stream handler is
    attached; no file is written. *)
Lemma Logger_log_root_of q level dbg con prop record w :
  root w = root_of q level dbg con prop ->
  files (Logger_log record w) = files w
  /\ stdout (Logger_log record w)
     = stdout w ++ (if con && isEnabledFor (levelno record) w
                    then [verbose_line record] else []).
Proof.
  intros Hroot. unfold Logger_log, isEnabledFor, callHandlers.
  rewrite Hroot. simpl.
  destruct (levelno record <=? 0)%Z; [by rewrite andb_false_r, app_nil_r|].
  destruct (level <=? levelno record)%Z eqn:Hl;
    [|by rewrite andb_false_r, app_nil_r].
  destruct (QueueHandler_emit_sinks (queue_handler_of q dbg) record w)
    as [Hf Hs].
  destruct con; simpl; rewrite ?Hl; case_match; simpl;
    rewrite ?Hf, ?Hs, ?app_nil_r; done.
Qed.

Lemma Logger_log_no_handlers record w :
  l_handlers (root w) = [] ->
  files (Logger_log record w) = files w
  /\ stdout (Logger_log record w) = stdout w.
Proof.
  intros H. unfold Logger_log, callHandlers. rewrite H. simpl. by case_match.
Qed.

Lemma lines_to_routed dbg record :
  lines_to (LogFile app_log) (routed dbg record)
  = (if (levelno record =? INFO)%Z then [compact_line record] else [])
  /\ lines_to (LogFile errors_log) (routed dbg record)
     = (if (WARNING <=? levelno record)%Z then [verbose_line record] else [])
  /\ lines_to (LogFile debug_log) (routed dbg record)
     = (if dbg && (DEBUG <=? levelno record)%Z
        then [verbose_line record] else [])
  /\ lines_to Stdout (routed dbg record) = [].
Proof.
  unfold routed.
  destruct (levelno record =? INFO)%Z, (WARNING <=? levelno record)%Z,
    dbg, (DEBUG <=? levelno record)%Z; done.
Qed.

(** What a turn of a listener built by [init] does to the sinks. *)
Lemma deliver_sinks q dbg w w' :
  listener_step (listener_of q dbg) w = Some w' ->
  exists record w1,
    get q w = Some (record, w1)
    /\ file_content app_log w'
       = file_content app_log w
         ++ (if (levelno record =? INFO)%Z then [compact_line record] else [])
    /\ file_content errors_log w'
       = file_content errors_log w
         ++ (if (WARNING <=? levelno record)%Z
             then [verbose_line record] else [])
    /\ file_content debug_log w'
       = file_content debug_log w
         ++ (if dbg && (DEBUG <=? levelno record)%Z
             then [verbose_line record] else [])
    /\ stdout w' = stdout w.
Proof.
  intros H. apply listener_step_inv in H as (record & w1 & Hg & ->).
  exists record, w1. split; [done|].
  destruct (get_sinks _ _ _ _ Hg) as [Hf Hs].
  destruct (lines_to_routed dbg record) as (Ha & He & Hd & Ho).
  rewrite !perform_file_content, perform_stdout, Ha, He, Hd, Ho, Hs, app_nil_r.
  unfold file_content. by rewrite Hf.
Qed.

Lemma Forall_if_singleton {A} (P : A -> Prop) (b : bool) (x : A) :
  P x -> Forall P (if b then [x] else []).
Proof. intros H. destruct b; by repeat constructor. Qed.

Lemma write_heap out w : heap (write out w) = heap w.
Proof. unfold write. by destruct (out.1). Qed.

Lemma perform_heap outs w : heap (perform outs w) = heap w.
Proof.
  revert w. induction outs as [|out outs IH]; intros w; simpl; [done|].
  by rewrite IH, write_heap.
Qed.

Lemma get_waiting q record w w1 :
  get q w = Some (record, w1) -> waiting q w = record :: waiting q w1.
Proof.
  unfold get, waiting. destruct (heap w !! q) as [qu|]; [|done].
  destruct (items qu) as [|r rest] eqn:E; [done|]. intros [= <- <-]. simpl.
  by rewrite lookup_insert_eq, E.
Qed.

(** The fields of a line: the required fields, then the names of the extra
    attributes that are merged. *)
Lemma odict_set_keys key value d :
  (odict_set key value d).*1 = add_name d.*1 key.
Proof.
  unfold add_name. induction d as [|[k v] d IH]; cbn [odict_set fmap list_fmap fst].
  - reflexivity.
  - destruct (String.eqb_spec key k) as [->|Hne]; cbn [fmap list_fmap fst].
    + rewrite bool_decide_true; [reflexivity | apply list_elem_of_here].
    + rewrite IH. destruct (bool_decide (key ∈ d.*1)) eqn:E.
      * apply bool_decide_eq_true in E.
        rewrite bool_decide_true; [reflexivity | by apply list_elem_of_further].
      * apply bool_decide_eq_false in E.
        rewrite bool_decide_false; [reflexivity|].
        intros H. apply elem_of_cons in H as [H|H]; [by apply Hne | by apply E].
Qed.

Lemma required_fields_keys record required d :
  (foldl (fun d field => odict_set field (LogRecord_get field record) d)
         d required).*1
  = foldl add_name d.*1 required.
Proof.
  revert d. induction required as [|field required IH]; intros d; cbn [foldl].
  - reflexivity.
  - rewrite IH, odict_set_keys. reflexivity.
Qed.

Lemma merge_record_extra_keys record target reserved :
  (merge_record_extra record target reserved).*1
  = foldl add_name target.*1
          (filter (fun key => merged reserved key = true) (extra record).*1).
Proof.
  unfold merge_record_extra. generalize (extra record) as kvs. intros kvs.
  revert target.
  induction kvs as [|[k v] kvs IH]; intros target;
    cbn [foldl fmap list_fmap fst snd].
  - reflexivity.
  - rewrite filter_cons. cbn [fst snd]. destruct (merged reserved k) eqn:E.
    + rewrite decide_True by reflexivity. cbn [foldl].
      rewrite IH, odict_set_keys. reflexivity.
    + rewrite decide_False by discriminate. apply IH.
Qed.

Lemma foldl_add_name_NoDup names keys :
  NoDup (names ++ keys) -> foldl add_name names keys = names ++ keys.
Proof.
  revert names. induction keys as [|k keys IH]; intros names H; cbn [foldl].
  - by rewrite app_nil_r.
  - assert (add_name names k = names ++ [k]) as ->.
    { unfold add_name. rewrite bool_decide_false; [reflexivity|].
      apply NoDup_app in H as (_ & H & _). intros Hk.
      apply (H k Hk). apply list_elem_of_here. }
    rewrite IH by (by rewrite <- app_assoc). by rewrite <- app_assoc.
Qed.

Lemma foldl_add_name_app base names keys :
  Forall (fun key => key ∉ base) keys ->
  foldl add_name (base ++ names) keys = base ++ foldl add_name names keys.
Proof.
  revert names. induction keys as [|k keys IH]; intros names Hk; cbn [foldl].
  - reflexivity.
  - inversion Hk as [|? ? Hn Hks]; subst.
    assert (add_name (base ++ names) k = base ++ add_name names k) as ->.
    { unfold add_name. destruct (bool_decide (k ∈ names)) eqn:E.
      - apply bool_decide_eq_true in E.
        rewrite bool_decide_true; [reflexivity|].
        apply elem_of_app. by right.
      - apply bool_decide_eq_false in E.
        rewrite bool_decide_false; [by rewrite app_assoc|].
        intros H. apply elem_of_app in H as [H|H]; [by apply Hn | by apply E]. }
    by apply IH.
Qed.

Lemma merged_required required key :
  Forall (fun field => field ∈ RESERVED_ATTRS) required ->
  merged (required ++ RESERVED_ATTRS) key = merged RESERVED_ATTRS key.
Proof.
  intros H. unfold merged. f_equal. f_equal. apply bool_decide_ext.
  rewrite elem_of_app. split; [|by right].
  intros [Hk|Hk]; [|exact Hk]. rewrite Forall_forall in H. by apply H.
Qed.

Lemma add_fields_keys required record :
  NoDup required ->
  Forall (fun field => field ∈ RESERVED_ATTRS) required ->
  (add_fields required record).*1 = required ++ extra_names record.
Proof.
  intros Hnd Hres. unfold add_fields, extra_names.
  rewrite merge_record_extra_keys, required_fields_keys.
  cbn [fmap list_fmap].
  rewrite (foldl_add_name_NoDup [] required) by exact Hnd.
  rewrite (list_filter_iff _ (fun key => merged RESERVED_ATTRS key = true))
    by (intros key; by rewrite merged_required).
  rewrite app_nil_l.
  pose proof (foldl_add_name_app required []
                (filter (fun key => merged RESERVED_ATTRS key = true)
                        (extra record).*1)) as E.
  rewrite app_nil_r in E. apply E.
  apply Forall_forall. intros key Hkey Hin.
  apply list_elem_of_filter in Hkey as [Hm _].
  rewrite Forall_forall in Hres. specialize (Hres key Hin).
  unfold merged in Hm. rewrite bool_decide_true in Hm by exact Hres.
  discriminate.
Qed.

Lemma parse_json_format : parse json_format = compact_fields.
Proof. vm_compute. reflexivity. Qed.

Lemma parse_debug_json_format : parse debug_json_format = verbose_fields.
Proof. vm_compute. reflexivity. Qed.

Lemma verbose_fields_reserved :
  NoDup verbose_fields
  /\ Forall (fun field => field ∈ RESERVED_ATTRS) verbose_fields.
Proof.
  split; apply (bool_decide_unpack _); vm_compute; exact I.
Qed.

Lemma compact_fields_reserved :
  NoDup compact_fields
  /\ Forall (fun field => field ∈ RESERVED_ATTRS) compact_fields.
Proof.
  split; apply (bool_decide_unpack _); vm_compute; exact I.
Qed.

Lemma compact_line_keys record :
  line_keys (compact_line record)
  = Some (compact_fields ++ extra_names record).
Proof.
  unfold compact_line, JsonFormatter_format, line_keys.
  rewrite parse_json_format.
  destruct compact_fields_reserved as [Hnd Hres].
  by rewrite add_fields_keys.
Qed.

Lemma verbose_line_keys record :
  line_keys (verbose_line record)
  = Some (verbose_fields ++ extra_names record).
Proof.
  unfold verbose_line, JsonFormatter_format, line_keys.
  rewrite parse_debug_json_format.
  destruct verbose_fields_reserved as [Hnd Hres].
  by rewrite add_fields_keys.
Qed.

Lemma extra_names_nil record : extra record = [] -> extra_names record = [].
Proof. unfold extra_names. by intros ->. Qed.

(** The records in the queues and the lines in the sinks come from the
    logging calls of the history. *)
Lemma put_nowait_waiting (P : LogRecord -> Prop) q record w w' q' :
  put_nowait q record w = Some w' ->
  P record -> Forall P (waiting q' w) -> Forall P (waiting q' w').
Proof.
  unfold put_nowait, waiting. destruct (heap w !! q) as [qu|] eqn:Hq; [|done].
  case_match; [done|]. intros [= <-] Hr Hw. simpl.
  destruct (decide (q = q')) as [<-|Hne].
  - rewrite lookup_insert_eq. simpl. rewrite Hq in Hw. simpl in Hw.
    apply Forall_app. split; [done|]. by constructor.
  - by rewrite lookup_insert_ne.
Qed.

Lemma callHandlers_waiting (P : LogRecord -> Prop) record w q :
  P record -> Forall P (waiting q w) -> Forall P (waiting q (callHandlers record w)).
Proof.
  intros Hr. unfold callHandlers. generalize (l_handlers (root w)) as hs.
  intros hs. revert w. induction hs as [|h hs IH]; intros w Hw; cbn [foldl].
  - exact Hw.
  - apply IH. case_match; [|exact Hw]. destruct (h.2) as [h'|qh].
    + unfold waiting. rewrite perform_heap. exact Hw.
    + unfold QueueHandler_emit.
      destruct (put_nowait (queue qh) record w) as [w'|] eqn:Hp; simpl.
      * by eapply put_nowait_waiting.
      * exact Hw.
Qed.

Lemma Logger_log_waiting (P : LogRecord -> Prop) record w q :
  P record -> Forall P (waiting q w) -> Forall P (waiting q (Logger_log record w)).
Proof.
  intros Hr Hw. unfold Logger_log. case_match; [|exact Hw].
  by apply callHandlers_waiting.
Qed.

Lemma get_waiting_Forall (P : LogRecord -> Prop) q record w w1 :
  get q w = Some (record, w1) ->
  (forall q', Forall P (waiting q' w)) ->
  P record /\ forall q', Forall P (waiting q' w1).
Proof.
  intros Hg H. pose proof (H q) as Hq.
  rewrite (get_waiting _ _ _ _ Hg) in Hq.
  apply Forall_cons in Hq as [Hr Hq]. split; [exact Hr|]. intros q'.
  destruct (decide (q = q')) as [<-|Hne]; [exact Hq|].
  specialize (H q'). revert H Hg. unfold waiting, get.
  destruct (heap w !! q) as [qu|]; [|done].
  destruct (items qu); [done|]. intros H [= _ <-]. simpl.
  by rewrite lookup_insert_ne.
Qed.

Lemma lines_from_snoc history e w :
  lines_from history w -> lines_from (history ++ [e]) w.
Proof.
  assert (forall mk : LogRecord -> line, forall ls,
            Forall (fun l => exists r, Log r ∈ history /\ l = mk r) ls ->
            Forall (fun l => exists r, Log r ∈ history ++ [e] /\ l = mk r) ls)
    as Hlines.
  { intros mk ls H. eapply Forall_impl; [exact H|].
    intros l (r & Hr & ->). exists r. split; [|reflexivity].
    apply elem_of_app. by left. }
  intros [Hw Ha He Hd Ho]. split; [|by apply Hlines..].
  intros q. eapply Forall_impl; [exact (Hw q)|].
  intros r Hr. apply elem_of_app. by left.
Qed.

Lemma exec_lines_from history w :
  exec history import_module = Some w -> lines_from history w.
Proof.
  revert w. induction history as [|e history IH] using rev_ind; intros w.
  - intros [= <-]. split; [intros q|..]; try by constructor.
    unfold waiting. simpl. destruct q as [|q].
    + rewrite lookup_insert_eq. by constructor.
    + rewrite lookup_insert_ne by done. rewrite lookup_empty. by constructor.
  - rewrite exec_snoc.
    destruct (exec history import_module) as [w0|] eqn:Hex; [|done]. simpl.
    specialize (IH w0 eq_refl).
    apply (lines_from_snoc _ e) in IH. destruct IH as [Hw Ha He Hd Ho].
    pose proof (exec_invariant _ _ Hex) as Hinv.
    destruct e as [a level d p c|record|i]; simpl.
    + rewrite (init_returns _ _ _ _ _ _ _ Hex). intros [= <-]. by split.
    + intros [= <-].
      assert (Log record ∈ history ++ [Log record]) as Hin.
      { apply elem_of_app. right. apply list_elem_of_here. }
      destruct Hinv as [(lv & dis & prop & _ & Hroot) _ _ _ _].
      assert (files (Logger_log record w0) = files w0
              /\ exists ls, stdout (Logger_log record w0) = stdout w0 ++ ls
                            /\ Forall (fun l => l = verbose_line record) ls)
        as (Hf & ls & Hs & Hls).
      { destruct (init_seen history).
        - destruct (Logger_log_root_of _ _ _ _ _ record _ Hroot) as [Hf Hs].
          split; [done|]. eexists. split; [done|].
          by apply Forall_if_singleton.
        - destruct (Logger_log_no_handlers record w0) as [Hf Hs];
            [by rewrite Hroot|].
          split; [done|]. exists []. by rewrite app_nil_r. }
      split; unfold file_content; rewrite ?Hf, ?Hs; try done.
      * intros q. by apply Logger_log_waiting.
      * apply Forall_app. split; [done|].
        eapply Forall_impl; [exact Hls|]. intros l ->. by exists record.
    + intros H. destruct (threads w0 !! i) as [l|] eqn:Hl; [|done].
      simpl in H. destruct Hinv as [_ _ _ Hth _].
      destruct (Forall_lookup_1 _ _ _ _ Hth Hl) as [dbg ->].
      destruct (listener_step_inv _ _ _ _ H) as (record' & w1' & Hg' & Hw').
      apply deliver_sinks in H
        as (record & w1 & Hg & Ea & Ee & Ed & Eo).
      rewrite Hg in Hg'. injection Hg' as <- <-.
      destruct (get_waiting_Forall _ _ _ _ _ Hg Hw) as [Hin Hw1].
      split; rewrite ?Ea, ?Ee, ?Ed, ?Eo; try done.
      * intros q. specialize (Hw1 q). revert Hw1. rewrite Hw'.
        unfold waiting. by rewrite perform_heap.
      * apply Forall_app. split; [done|].
        apply Forall_if_singleton. by exists record.
      * apply Forall_app. split; [done|].
        apply Forall_if_singleton. by exists record.
      * apply Forall_app. split; [done|].
        apply Forall_if_singleton. by exists record.
Qed.

(** [init] makes no queue object and leaves the default where it is,
    whatever the world it is called in. *)
Lemma QueueListenerHandler_init_spec hs respect auto_run queue_arg w self w' :
  QueueListenerHandler_init hs respect auto_run queue_arg w = Some (self, w') ->
  queue self = default (default_queue w) queue_arg
  /\ ql_queue (_listener self) = queue self
  /\ default_queue w' = default_queue w
  /\ heap w' = heap w.
Proof.
  unfold QueueListenerHandler_init.
  destruct (_resolve_handlers hs) as [resolved|]; [|done]. simpl.
  intros [= <- <-]. by destruct auto_run.
Qed.

Lemma dictConfig_queues cfg w w' :
  dictConfig cfg w = Some w' ->
  default_queue w' = default_queue w /\ heap w' = heap w.
Proof.
  unfold dictConfig. intros H.
  destruct (configure_handler cfg "app_handler" _); simpl in H; [|done].
  destruct (configure_handler cfg "debug_handler" _); simpl in H; [|done].
  destruct (configure_handler cfg "error_handler" _); simpl in H; [|done].
  destruct (QueueListenerHandler_init _ _ _ _ _) as [[qh w1]|] eqn:Hq;
    simpl in H; [|done].
  apply QueueListenerHandler_init_spec in Hq as (_ & _ & <- & <-).
  destruct (configure_handler cfg "stream" _); simpl in H; [|done].
  destruct (mapM _ _); simpl in H; [|done].
  by injection H as <-.
Qed.

Lemma init_queues a level d p c w w' :
  init a level d p c w = Some w' ->
  default_queue w' = default_queue w /\ heap w' = heap w.
Proof. unfold init. intros H. apply dictConfig_queues in H. exact H. Qed.

Lemma step_queues e w w' :
  step e w = Some w' ->
  default_queue w' = default_queue w
  /\ forall q, maxsize <$> heap w' !! q = maxsize <$> heap w !! q.
Proof.
  destruct e as [a level d p c|record|i]; simpl.
  - intros H. apply init_queues in H as [? ->]. done.
  - intros [= <-]. by destruct (Logger_log_same_setup record w).
  - destruct (threads w !! i) as [l|]; [|done]. simpl. intros H.
    by destruct (listener_step_same_setup _ _ _ H).
Qed.

Lemma exec_queues history w w' :
  exec history w = Some w' ->
  default_queue w' = default_queue w
  /\ forall q, maxsize <$> heap w' !! q = maxsize <$> heap w !! q.
Proof.
  revert w'. induction history as [|e history IH] using rev_ind; intros w'.
  - by intros [= <-].
  - rewrite exec_snoc. destruct (exec history w) as [w0|]; [|done]. simpl.
    destruct (IH w0 eq_refl) as [Hd Hm]. intros H.
    apply step_queues in H as [-> Hm']. split; [done|].
    intros q. by rewrite Hm'.
Qed.

(** The handlers attached to the root logger after [init]. *)
Lemma attached_after_init level dbg con d p w :
  attached (after_init level dbg con d p w)
  = "queue_handler" :: (if con then ["stream"] else []).
Proof. by destruct con. Qed.

Lemma stream_attached (con : bool) :
  "stream" ∈ "queue_handler" :: (if con then ["stream"] else [])
  <-> con = true.
Proof.
  rewrite list_elem_of_In. destruct con; simpl; split; try done.
  - auto.
  - by intros [|[]].
Qed.

End logging_facts.

(** * The statements of the specification *)

Section claims.
Import get_router app logging_module configured samples observations.

(** C1: a record a listener thread takes off the queue is routed between the
    two file handlers by its severity: at level INFO a line for it is
    appended to [app.log] and [errors.log] is left as it is; at level
    WARNING, ERROR or CRITICAL a line for it is appended to [errors.log] and
    [app.log] is left as it is. *)
Theorem C1_routing_by_severity history w i l record w1 :
  exec history import_module = Some w ->
  threads w !! i = Some l ->
  get (ql_queue l) w = Some (record, w1) ->
  exists w',
    step (Deliver i) w = Some w'
    /\ (levelno record = INFO ->
        file_content app_log w'
        = file_content app_log w ++ [compact_line record]
        /\ file_content errors_log w' = file_content errors_log w)
    /\ (levelno record = WARNING \/ levelno record = ERROR
        \/ levelno record = CRITICAL ->
        file_content errors_log w'
        = file_content errors_log w ++ [verbose_line record]
        /\ file_content app_log w' = file_content app_log w).
Proof.
  intros Hex Hl Hg.
  destruct (exec_invariant _ _ Hex) as [_ _ _ Hth _].
  destruct (Forall_lookup_1 _ _ _ _ Hth Hl) as [dbg ->].
  simpl in Hg.
  pose proof (listener_step_listener_of _ dbg _ _ _ Hg) as Hstep.
  exists (perform (routed dbg record) w1).
  split; [by simpl; rewrite Hl|].
  apply deliver_sinks in Hstep
    as (record' & w1' & Hg' & Ea & Ee & _ & _).
  rewrite Hg in Hg'. injection Hg' as <- <-.
  rewrite Ea, Ee. split.
  - intros ->. by rewrite app_nil_r.
  - intros [-> | [-> | ->]]; by rewrite app_nil_r.
Qed.

Lemma C1_routing_by_severity_witness :
  exists w',
    step (Deliver 0) (world_after one_info) = Some w'
    /\ (levelno info_record = INFO ->
        file_content app_log w'
        = file_content app_log (world_after one_info)
          ++ [compact_line info_record]
        /\ file_content errors_log w'
           = file_content errors_log (world_after one_info))
    /\ (levelno info_record = WARNING \/ levelno info_record = ERROR
        \/ levelno info_record = CRITICAL ->
        file_content errors_log w'
        = file_content errors_log (world_after one_info)
          ++ [verbose_line info_record]
        /\ file_content app_log w'
           = file_content app_log (world_after one_info)).
Proof.
  apply (C1_routing_by_severity one_info (world_after one_info) 0
           (listener_of 0 false) info_record
           (world_after_get 0 (world_after one_info)));
    vm_compute; reflexivity.
Defined.

(** C2, as stated, fails: after [init("test", INFO)], with the default
    [console=True], the root logger has the stream handler attached next
    to the queue handler, and a logging call writes the console line
    itself, before any listener has taken a turn. *)
Lemma C2_counterexample :
  init "test" INFO false false true import_module
  = Some (world_after one_init)
  /\ attached (world_after one_init) = ["queue_handler"; "stream"]
  /\ stdout (world_after one_init) = []
  /\ stdout (Logger_log info_record (world_after one_init))
     = [verbose_line info_record].
Proof. by_evaluation. Qed.

(** C2, amended: once [init] has been called, file writes happen only
    downstream of the queue, in a listener thread: a logging call never
    changes a file.  The root logger dispatches to the queue handler and,
    when some call of [init] so far passed [console=True], also directly to
    the stream handler, so that the console line is written by the logging
    call itself; a listener never writes to the console. *)
Theorem C2_files_behind_queue history w :
  exec history import_module = Some w ->
  init_seen history = true ->
  attached w
  = "queue_handler" :: (if console_seen history then ["stream"] else [])
  /\ (forall record, files (Logger_log record w) = files w)
  /\ (forall record,
        stdout (Logger_log record w)
        = stdout w ++ (if console_seen history
                          && isEnabledFor (levelno record) w
                       then [verbose_line record] else []))
  /\ (forall i w', step (Deliver i) w = Some w' -> stdout w' = stdout w).
Proof.
  intros Hex Hi.
  destruct (exec_invariant _ _ Hex)
    as [(lv & dis & prop & _ & Hroot) _ _ Hth _].
  rewrite Hi in Hroot. repeat split.
  - unfold attached. rewrite Hroot. simpl. by destruct (console_seen history).
  - intros record. by destruct (Logger_log_root_of _ _ _ _ _ record _ Hroot).
  - intros record.
    by destruct (Logger_log_root_of _ _ _ _ _ record _ Hroot) as [_ ->].
  - intros i w'. simpl. destruct (threads w !! i) as [l|] eqn:Hl; [|done].
    simpl. destruct (Forall_lookup_1 _ _ _ _ Hth Hl) as [dbg ->].
    intros H. by apply deliver_sinks in H as (? & ? & _ & _ & _ & _ & ?).
Qed.

Lemma C2_files_behind_queue_witness :
  attached (world_after one_info)
  = "queue_handler" :: (if console_seen one_info then ["stream"] else [])
  /\ (forall record,
        files (Logger_log record (world_after one_info))
        = files (world_after one_info))
  /\ (forall record,
        stdout (Logger_log record (world_after one_info))
        = stdout (world_after one_info)
          ++ (if console_seen one_info
                 && isEnabledFor (levelno record) (world_after one_info)
              then [verbose_line record] else []))
  /\ (forall i w',
        step (Deliver i) (world_after one_info) = Some w' ->
        stdout w' = stdout (world_after one_info)).
Proof.
  apply (C2_files_behind_queue one_info (world_after one_info));
    vm_compute; reflexivity.
Defined.

(** C3, as stated, fails: the error handler uses the formatter
    [debug_json], so the line a WARNING record leaves in [errors.log] has
    the seven fields, not the four. *)
Lemma C3_counterexample :
  exec one_warning import_module = Some (world_after one_warning)
  /\ step (Deliver 0) (world_after one_warning)
     = Some (world_after (one_warning ++ [Deliver 0]))
  /\ file_content errors_log (world_after (one_warning ++ [Deliver 0]))
     = [verbose_line warning_record]
  /\ line_keys (verbose_line warning_record)
     = Some ["asctime"; "name"; "levelname"; "pathname"; "lineno";
             "funcName"; "message"].
Proof. by_evaluation. Qed.

(** An attribute passed with [extra=] is a field of the line: the record
    logged with [extra={'user': 'bob'}] leaves a line of five fields in
    [app.log]. *)
Lemma extra_attribute_in_line :
  exec with_extra import_module = Some (world_after with_extra)
  /\ file_content app_log (world_after with_extra) = [compact_line bob_record]
  /\ line_keys (compact_line bob_record)
     = Some ["asctime"; "name"; "levelname"; "message"; "user"]
  /\ line_get "user" (compact_line bob_record) = Some (JStr "bob").
Proof. by_evaluation. Qed.

(** C3, amended, for records whose message is text and which carry no
    exception and no stack information (their standard attributes are all
    reserved by the formatter): every line in [app.log] is a JSON
    object written for a record that was logged, and its fields are
    asctime, name, levelname and message, followed by the extra attributes
    of that record which the formatter merges; every line in [errors.log],
    in [debug.log] and on the console is a JSON object written for a record
    that was logged, with the fields asctime, name, levelname, pathname,
    lineno, funcName and message, followed by the merged extra attributes of
    that record.  Hence, when no logged record has such an extra attribute,
    the fields of every line in [app.log] are exactly the four, and those of
    every line in [errors.log], in [debug.log] and on the console exactly
    the seven. *)
Theorem C3_line_fields history w :
  exec history import_module = Some w ->
  (forall l, l ∈ file_content app_log w ->
     exists record,
       Log record ∈ history
       /\ line_keys l = Some (compact_fields ++ extra_names record))
  /\ (forall l, l ∈ file_content errors_log w ->
        exists record,
          Log record ∈ history
          /\ line_keys l = Some (verbose_fields ++ extra_names record))
  /\ (forall l, l ∈ file_content debug_log w ->
        exists record,
          Log record ∈ history
          /\ line_keys l = Some (verbose_fields ++ extra_names record))
  /\ (forall l, l ∈ stdout w ->
        exists record,
          Log record ∈ history
          /\ line_keys l = Some (verbose_fields ++ extra_names record))
  /\ ((forall record, Log record ∈ history -> extra_names record = []) ->
      (forall l, l ∈ file_content app_log w ->
                 line_keys l = Some compact_fields)
      /\ (forall l, l ∈ file_content errors_log w ->
                    line_keys l = Some verbose_fields)
      /\ (forall l, l ∈ file_content debug_log w ->
                    line_keys l = Some verbose_fields)
      /\ (forall l, l ∈ stdout w -> line_keys l = Some verbose_fields)).
Proof.
  intros Hex. destruct (exec_lines_from _ _ Hex) as [_ Ha He Hd Ho].
  rewrite Forall_forall in Ha, He, Hd, Ho.
  assert (forall ls : list line,
            (forall l, l ∈ ls ->
               exists r, Log r ∈ history /\ l = compact_line r) ->
            forall l, l ∈ ls ->
              exists record,
                Log record ∈ history
                /\ line_keys l = Some (compact_fields ++ extra_names record))
    as Hcompact.
  { intros ls H l Hl. destruct (H l Hl) as (r & Hr & ->).
    exists r. split; [exact Hr | apply compact_line_keys]. }
  assert (forall ls : list line,
            (forall l, l ∈ ls ->
               exists r, Log r ∈ history /\ l = verbose_line r) ->
            forall l, l ∈ ls ->
              exists record,
                Log record ∈ history
                /\ line_keys l = Some (verbose_fields ++ extra_names record))
    as Hverbose.
  { intros ls H l Hl. destruct (H l Hl) as (r & Hr & ->).
    exists r. split; [exact Hr | apply verbose_line_keys]. }
  split; [by apply Hcompact|].
  split; [by apply Hverbose|].
  split; [by apply Hverbose|].
  split; [by apply Hverbose|].
  intros Hplain.
  split; [|split; [|split]]; intros l Hl.
  - destruct (Hcompact _ Ha l Hl) as (r & Hr & ->).
    by rewrite (Hplain r Hr), app_nil_r.
  - destruct (Hverbose _ He l Hl) as (r & Hr & ->).
    by rewrite (Hplain r Hr), app_nil_r.
  - destruct (Hverbose _ Hd l Hl) as (r & Hr & ->).
    by rewrite (Hplain r Hr), app_nil_r.
  - destruct (Hverbose _ Ho l Hl) as (r & Hr & ->).
    by rewrite (Hplain r Hr), app_nil_r.
Qed.

Lemma C3_line_fields_witness :
  (forall l, l ∈ file_content app_log (world_after with_extra) ->
     exists record,
       Log record ∈ with_extra
       /\ line_keys l = Some (compact_fields ++ extra_names record))
  /\ (forall l, l ∈ file_content errors_log (world_after with_extra) ->
        exists record,
          Log record ∈ with_extra
          /\ line_keys l = Some (verbose_fields ++ extra_names record))
  /\ (forall l, l ∈ file_content debug_log (world_after with_extra) ->
        exists record,
          Log record ∈ with_extra
          /\ line_keys l = Some (verbose_fields ++ extra_names record))
  /\ (forall l, l ∈ stdout (world_after with_extra) ->
        exists record,
          Log record ∈ with_extra
          /\ line_keys l = Some (verbose_fields ++ extra_names record))
  /\ ((forall record, Log record ∈ with_extra -> extra_names record = []) ->
      (forall l, l ∈ file_content app_log (world_after with_extra) ->
                 line_keys l = Some compact_fields)
      /\ (forall l, l ∈ file_content errors_log (world_after with_extra) ->
                    line_keys l = Some verbose_fields)
      /\ (forall l, l ∈ file_content debug_log (world_after with_extra) ->
                    line_keys l = Some verbose_fields)
      /\ (forall l, l ∈ stdout (world_after with_extra) ->
                    line_keys l = Some verbose_fields)).
Proof.
  apply (C3_line_fields with_extra (world_after with_extra));
    vm_compute; reflexivity.
Defined.

(** C4, as stated, fails: after a call with [console=True], a call with
    [console=False] returns with the stream handler still attached to the
    root logger. *)
Lemma C4_counterexample :
  exec one_init import_module = Some (world_after one_init)
  /\ init "app" INFO false false false (world_after one_init)
     = Some (world_after console_then_not)
  /\ attached (world_after console_then_not) = ["queue_handler"; "stream"]
  /\ stdout (Logger_log info_record (world_after console_then_not))
     = stdout (world_after console_then_not) ++ [verbose_line info_record].
Proof. by_evaluation. Qed.

(** C4, amended: [init] returns, and after it the stream handler is
    attached to the root logger if and only if this call or an earlier one
    passed [console=True]; for a first call, or after calls that all passed
    [console=False], that is if and only if this call passed
    [console=True].  A record the level admits gets its console line
    exactly in that case. *)
Theorem C4_console_attachment history w a level d p c :
  exec history import_module = Some w ->
  exists w',
    init a level d p c w = Some w'
    /\ ("stream" ∈ attached w' <-> c = true \/ console_seen history = true)
    /\ (console_seen history = false ->
        ("stream" ∈ attached w' <-> c = true))
    /\ (forall record,
          stdout (Logger_log record w')
          = stdout w' ++ (if (console_seen history || c)
                             && isEnabledFor (levelno record) w'
                          then [verbose_line record] else [])).
Proof.
  intros Hex. eexists. split; [by apply (init_returns _ _ _ _ _ _ _ Hex)|].
  rewrite attached_after_init, !stream_attached.
  split; [|split].
  - rewrite orb_true_iff. tauto.
  - by intros ->.
  - intros record.
    by destruct (Logger_log_root_of (default_queue w) level
                   (debug_seen history || (level =? DEBUG)%Z)
                   (console_seen history || c) p record
                   (after_init level (debug_seen history || (level =? DEBUG)%Z)
                      (console_seen history || c) d p w) eq_refl).
Qed.

Lemma C4_console_attachment_witness :
  exists w',
    init "app" INFO false false false (world_after one_init) = Some w'
    /\ ("stream" ∈ attached w'
        <-> false = true \/ console_seen one_init = true)
    /\ (console_seen one_init = false ->
        ("stream" ∈ attached w' <-> false = true))
    /\ (forall record,
          stdout (Logger_log record w')
          = stdout w' ++ (if (console_seen one_init || false)
                             && isEnabledFor (levelno record) w'
                          then [verbose_line record] else [])).
Proof.
  apply (C4_console_attachment one_init (world_after one_init)
           "app" INFO false false false).
  vm_compute; reflexivity.
Defined.

(** C5: attaching the debug file handler is idempotent.  Two calls of
    [init] with [level=DEBUG], after any history, both return; the reference
    to the debug handler is in the list of the queue handler exactly once
    after the first and the second call leaves the list as it is; the
    listener the second call starts has the debug handler once among its
    handlers, and writes one line per record to [debug.log], not two; no
    listener thread of the process writes more than one. *)
Theorem C5_debug_handler_once history w a1 d1 p1 c1 a2 d2 p2 c2 :
  exec history import_module = Some w ->
  exists w1 w2 l,
    init a1 DEBUG d1 p1 c1 w = Some w1
    /\ init a2 DEBUG d2 p2 c2 w1 = Some w2
    /\ count_occ string_dec (queue_handlers w1) debug_ref = 1%nat
    /\ queue_handlers w2 = queue_handlers w1
    /\ last (threads w2) = Some l
    /\ l_handlers (root w2) !! 0%nat
       = Some ("queue_handler", Queued {| queue := 0; _listener := l |})
    /\ ql_handlers l = [Instance app_h; Instance error_h; Instance debug_h]
    /\ (forall record,
          (DEBUG <= levelno record)%Z ->
          exists outs,
            QueueListener_handle l record = Some outs
            /\ lines_to (LogFile debug_log) outs = [verbose_line record])
    /\ (forall i l' record,
          threads w2 !! i = Some l' ->
          exists outs,
            QueueListener_handle l' record = Some outs
            /\ (length (lines_to (LogFile debug_log) outs) <= 1)%nat).
Proof.
  intros Hex.
  pose proof (init_returns _ _ a1 DEBUG d1 p1 c1 Hex) as H1.
  assert (exec (history ++ [Init a1 DEBUG d1 p1 c1]) import_module
          = Some (after_init DEBUG (debug_seen history || (DEBUG =? DEBUG)%Z)
                    (console_seen history || c1) d1 p1 w)) as Hex1.
  { rewrite exec_snoc, Hex. exact H1. }
  pose proof (init_returns _ _ a2 DEBUG d2 p2 c2 Hex1) as H2.
  assert (exists w2, init a2 DEBUG d2 p2 c2
                       (after_init DEBUG
                          (debug_seen history || (DEBUG =? DEBUG)%Z)
                          (console_seen history || c1) d1 p1 w) = Some w2
                     /\ exec ((history ++ [Init a1 DEBUG d1 p1 c1])
                                ++ [Init a2 DEBUG d2 p2 c2]) import_module
                        = Some w2) as (w2 & Hw2 & Hex2).
  { eexists. split; [exact H2|]. rewrite exec_snoc, Hex1. exact H2. }
  destruct (exec_invariant _ _ Hex2) as [_ _ _ Hth _].
  rewrite H2 in Hw2. injection Hw2 as <-.
  rewrite debug_seen_snoc in H2, Hth.
  do 2 eexists. exists (listener_of 0 true).
  split; [exact H1|]. split; [exact H2|].
  revert Hth. rewrite !orb_true_r. intros Hth.
  destruct (exec_invariant _ _ Hex) as [_ Hdq _ _ _].
  unfold after_init, queue_handlers. simpl. rewrite Hdq.
  split; [done|]. split; [done|]. split; [by rewrite last_snoc|].
  split; [done|]. split; [done|]. split.
  - intros record Hlv. eexists.
    split; [apply QueueListener_handle_listener_of|].
    destruct (lines_to_routed true record) as (_ & _ & -> & _).
    simpl. by rewrite (proj2 (Z.leb_le _ _) Hlv).
  - intros i l' record Hl'.
    unfold after_init in Hth. simpl in Hth. rewrite Hdq in Hth.
    destruct (Forall_lookup_1 _ _ _ _ Hth Hl') as [dbg ->].
    eexists. split; [apply QueueListener_handle_listener_of|].
    destruct (lines_to_routed dbg record) as (_ & _ & -> & _).
    case_match; simpl; lia.
Qed.

Lemma C5_debug_handler_once_witness :
  exists w1 w2 l,
    init "test" DEBUG false false true (world_after one_init) = Some w1
    /\ init "test" DEBUG false false true w1 = Some w2
    /\ count_occ string_dec (queue_handlers w1) debug_ref = 1%nat
    /\ queue_handlers w2 = queue_handlers w1
    /\ last (threads w2) = Some l
    /\ l_handlers (root w2) !! 0%nat
       = Some ("queue_handler", Queued {| queue := 0; _listener := l |})
    /\ ql_handlers l = [Instance app_h; Instance error_h; Instance debug_h]
    /\ (forall record,
          (DEBUG <= levelno record)%Z ->
          exists outs,
            QueueListener_handle l record = Some outs
            /\ lines_to (LogFile debug_log) outs = [verbose_line record])
    /\ (forall i l' record,
          threads w2 !! i = Some l' ->
          exists outs,
            QueueListener_handle l' record = Some outs
            /\ (length (lines_to (LogFile debug_log) outs) <= 1)%nat).
Proof.
  apply (C5_debug_handler_once one_init (world_after one_init)
           "test" false false true "test" false false true).
  vm_compute; reflexivity.
Defined.

(** C6: after [init("test", level=DEBUG)], [logger.debug("hello first
    error")] and the turn of the listener that delivers the record leave
    exactly one line in [debug.log], a JSON object with message "hello first
    error" and levelname "DEBUG", and no line in [app.log] or [errors.log];
    the queue is empty afterwards, so nothing else is written for the
    record. *)
Theorem C6_test_scenario (time logger path func : string) (line_number : Z) :
  let record := test_record time logger path func line_number in
  exists w l w',
    init "test" DEBUG false false true import_module = Some w
    /\ threads w = [l]
    /\ listener_step l (Logger_log record w) = Some w'
    /\ (exists out,
          file_content debug_log w' = [out]
          /\ line_get "message" out = Some (JStr "hello first error")
          /\ line_get "levelname" out = Some (JStr "DEBUG"))
    /\ file_content app_log w' = []
    /\ file_content errors_log w' = []
    /\ listener_step l w' = None.
Proof.
  intros record.
  exists (world_after test_init), (listener_of 0 true),
    (perform (routed true record)
       (world_after_get 0 (Logger_log record (world_after test_init)))).
  split; [by_evaluation|]. split; [by_evaluation|].
  split; [by_evaluation|].
  split; [exists (verbose_line record); by_evaluation|].
  by_evaluation.
Qed.

(** C7: for every request, [GET /Animal] returns exactly the body
    [{"message": {"name": "Simba", "Species": "Lion"}}]. *)
Theorem C7_get_Animal (q : option string) :
  GET {| url_path := "/Animal"; query_q := q |}
  = Ok200 (JObj [("message",
                  JObj [("name", JStr "Simba"); ("Species", JStr "Lion")])]).
Proof. reflexivity. Qed.

(** C8: for every integer [item_id], [GET /items/{item_id}] returns
    [{"item_id": item_id, "q": null}] when no query parameter [q] is
    supplied and [{"item_id": item_id, "q": q}] when it is; in particular
    for [/items/42] and [/items/42?q=foo]. *)
Theorem C8_get_items (item_id : Z) (q : string) :
  GET {| url_path := "/items/" +:+ show_int item_id; query_q := None |}
  = Ok200 (JObj [("item_id", JInt item_id); ("q", JNull)])
  /\ GET {| url_path := "/items/" +:+ show_int item_id; query_q := Some q |}
     = Ok200 (JObj [("item_id", JInt item_id); ("q", JStr q)])
  /\ GET {| url_path := "/items/42"; query_q := None |}
     = Ok200 (JObj [("item_id", JInt 42); ("q", JNull)])
  /\ GET {| url_path := "/items/42"; query_q := Some "foo" |}
     = Ok200 (JObj [("item_id", JInt 42); ("q", JStr "foo")]).
Proof. rewrite !GET_items. by repeat split. Qed.

(** C9: every [QueueListenerHandler] built without a queue argument uses
    the one queue made when the class was defined, of capacity 1000.  Two
    handlers built that way, at any two moments of the life of the process,
    have the same queue, and so have their listeners; building them makes no
    queue object; a record put on the queue through the first is in the
    queue the listener of the second takes its records from. *)
Theorem C9_default_queue_shared
  history hs1 respect1 run1 h1 w1 w1' between hs2 respect2 run2 h2 w2 w2' :
  exec history import_module = Some w1 ->
  QueueListenerHandler_init hs1 respect1 run1 None w1 = Some (h1, w1') ->
  exec between w1' = Some w2 ->
  QueueListenerHandler_init hs2 respect2 run2 None w2 = Some (h2, w2') ->
  queue h1 = queue h2
  /\ queue h1 = default_queue import_module
  /\ ql_queue (_listener h1) = ql_queue (_listener h2)
  /\ maxsize <$> heap w2' !! queue h2 = Some 1000
  /\ heap w1' = heap w1
  /\ heap w2' = heap w2
  /\ (forall record w3,
        put_nowait (queue h1) record w2' = Some w3 ->
        exists waiting,
          items <$> heap w3 !! ql_queue (_listener h2)
          = Some (waiting ++ [record])).
Proof.
  intros Hex1 Hh1 Hex2 Hh2.
  destruct (exec_invariant _ _ Hex1) as [_ Hdq1 Hcap1 _ _].
  apply QueueListenerHandler_init_spec in Hh1 as (Hq1 & Hl1 & Hd1 & Hheap1).
  apply QueueListenerHandler_init_spec in Hh2 as (Hq2 & Hl2 & Hd2 & Hheap2).
  destruct (exec_queues _ _ _ Hex2) as [Hd Hm].
  simpl in Hq1, Hq2.
  assert (queue h1 = 0%nat) as E1 by congruence.
  assert (queue h2 = 0%nat) as E2 by congruence.
  rewrite Hl1, Hl2, E1, E2.
  repeat match goal with |- _ /\ _ => split end; try done.
  - by rewrite Hheap2, Hm, Hheap1.
  - intros record w3. unfold put_nowait.
    destruct (heap w2' !! 0%nat) as [qu|]; [|done].
    case_match; [done|]. intros [= <-]. exists (items qu). simpl.
    by rewrite lookup_insert_eq.
Qed.

Lemma C9_default_queue_shared_witness :
  queue bare_handler = queue bare_handler
  /\ queue bare_handler = default_queue import_module
  /\ ql_queue (_listener bare_handler) = ql_queue (_listener bare_handler)
  /\ maxsize <$> heap two_bare !! queue bare_handler = Some 1000
  /\ heap one_bare = heap import_module
  /\ heap two_bare = heap one_bare
  /\ (forall record w3,
        put_nowait (queue bare_handler) record two_bare = Some w3 ->
        exists waiting,
          items <$> heap w3 !! ql_queue (_listener bare_handler)
          = Some (waiting ++ [record])).
Proof.
  apply (C9_default_queue_shared
           [] (PlainList []) true true bare_handler import_module one_bare
           [] (PlainList []) true true bare_handler one_bare two_bare);
    vm_compute; reflexivity.
Defined.

(** C10: what [init] does is independent of [app_name].  Two calls that
    differ only in the application name have the same outcome in every
    world, and so have two histories that differ only in the application
    names of their calls. *)
Theorem C10_app_name_unused a1 a2 level d p c w f history :
  init a1 level d p c w = init a2 level d p c w
  /\ exec (with_app_name f <$> history) w = exec history w.
Proof.
  split; [reflexivity|].
  unfold exec. generalize (Some w) as ow.
  induction history as [|e history IH]; intros ow; [done|]. simpl.
  rewrite IH. f_equal. destruct ow as [w0|]; [|done].
  by destruct e.
Qed.

End claims.


(** * Further properties of the logging module and of the router *)

Section more_facts.
Import get_router app logging_module configured samples observations.

Lemma exec_cons e history w :
  exec (e :: history) w = step e w ≫= exec history.
Proof.
  unfold exec. simpl. destruct (step e w) as [w'|]; [done|]. simpl.
  induction history as [|e' history IH]; [done|]. simpl. exact IH.
Qed.

(** X1: what a turn of a listener does, for a record of any integer level:
    the oldest waiting record is taken off the queue; it gets a line in
    [app.log] exactly when its level is INFO, a line in [errors.log] exactly
    when its level is WARNING or above, a line in [debug.log] exactly when
    the listener has the debug handler and the level is DEBUG or above; the
    console is not written. *)
Theorem X1_delivery_by_level history w i w' :
  exec history import_module = Some w ->
  step (Deliver i) w = Some w' ->
  exists record dbg,
    threads w !! i = Some (listener_of 0 dbg)
    /\ waiting 0 w = record :: waiting 0 w'
    /\ file_content app_log w'
       = file_content app_log w
         ++ (if (levelno record =? INFO)%Z then [compact_line record] else [])
    /\ file_content errors_log w'
       = file_content errors_log w
         ++ (if (WARNING <=? levelno record)%Z
             then [verbose_line record] else [])
    /\ file_content debug_log w'
       = file_content debug_log w
         ++ (if dbg && (DEBUG <=? levelno record)%Z
             then [verbose_line record] else [])
    /\ stdout w' = stdout w.
Proof.
  intros Hex. simpl. destruct (threads w !! i) as [l|] eqn:Hl; [|done]. simpl.
  destruct (exec_invariant _ _ Hex) as [_ _ _ Hth _].
  destruct (Forall_lookup_1 _ _ _ _ Hth Hl) as [dbg ->]. intros Hstep.
  pose proof (listener_step_inv _ _ _ _ Hstep) as (r & w1 & Hg & Hw').
  apply deliver_sinks in Hstep as (record & w1' & Hg' & Ea & Ee & Ed & Eo).
  rewrite Hg in Hg'. injection Hg' as <- <-.
  exists r, dbg. split; [done|]. split; [|done].
  rewrite (get_waiting _ _ _ _ Hg). subst w'. unfold waiting.
  by rewrite perform_heap.
Qed.

Lemma X1_delivery_by_level_witness :
  exists record dbg,
    threads (world_after one_notice) !! 0%nat = Some (listener_of 0 dbg)
    /\ waiting 0 (world_after one_notice)
       = record :: waiting 0 (world_after (one_notice ++ [Deliver 0]))
    /\ file_content app_log (world_after (one_notice ++ [Deliver 0]))
       = file_content app_log (world_after one_notice)
         ++ (if (levelno record =? INFO)%Z then [compact_line record] else [])
    /\ file_content errors_log (world_after (one_notice ++ [Deliver 0]))
       = file_content errors_log (world_after one_notice)
         ++ (if (WARNING <=? levelno record)%Z
             then [verbose_line record] else [])
    /\ file_content debug_log (world_after (one_notice ++ [Deliver 0]))
       = file_content debug_log (world_after one_notice)
         ++ (if dbg && (DEBUG <=? levelno record)%Z
             then [verbose_line record] else [])
    /\ stdout (world_after (one_notice ++ [Deliver 0]))
       = stdout (world_after one_notice).
Proof.
  apply (X1_delivery_by_level one_notice (world_after one_notice) 0
           (world_after (one_notice ++ [Deliver 0])));
    vm_compute; reflexivity.
Defined.

(** X2: after [init] with a given level, a logging call for a record below
    that level, or at a level that is not positive, changes nothing: no
    record is queued and no line is written. *)
Theorem X2_below_level_ignored history w a level d p c record :
  exec history import_module = Some w ->
  (levelno record < level)%Z \/ (levelno record <= 0)%Z ->
  exists w', init a level d p c w = Some w' /\ Logger_log record w' = w'.
Proof.
  intros Hex Hlv. eexists. split; [by apply (init_returns _ _ _ _ _ _ _ Hex)|].
  unfold Logger_log, isEnabledFor, after_init. simpl.
  destruct (Z.leb_spec (levelno record) 0); [done|].
  destruct (Z.leb_spec level (levelno record)); [lia|done].
Qed.

Lemma X2_below_level_ignored_witness :
  exists w',
    init "app" ERROR false false true import_module = Some w'
    /\ Logger_log info_record w' = w'.
Proof.
  apply (X2_below_level_ignored [] import_module "app" ERROR false false true
           info_record).
  - reflexivity.
  - left. vm_compute. reflexivity.
Defined.

Lemma count_inits_snoc history e :
  count_inits (history ++ [e])
  = (count_inits history + if is_init e then 1 else 0)%nat.
Proof.
  unfold count_inits. rewrite filter_app, length_app. f_equal.
  by destruct e.
Qed.

Lemma last_init_snoc history e :
  last_init (history ++ [e])
  = match e with
    | Init _ level disable propagate _ => Some (level, disable, propagate)
    | _ => last_init history
    end.
Proof. unfold last_init. by rewrite foldl_app. Qed.

(** X3: every call of [init] starts one more listener thread and none is
    ever stopped: after a history the process has as many listener threads
    as there were calls of [init], all of them taking their records from the
    one default queue. *)
Theorem X3_one_listener_per_init history w :
  exec history import_module = Some w ->
  length (threads w) = count_inits history
  /\ Forall (fun l => ql_queue l = default_queue w) (threads w).
Proof.
  intros Hex. split.
  - revert w Hex.
    induction history as [|e history IH] using rev_ind; intros w.
    + by intros [= <-].
    + rewrite exec_snoc, count_inits_snoc.
      destruct (exec history import_module) as [w0|] eqn:Hex0; [|done].
      simpl. specialize (IH w0 eq_refl).
      destruct e as [a level d p c|record|i]; simpl.
      * rewrite (init_returns _ _ _ _ _ _ _ Hex0). intros [= <-].
        simpl. rewrite length_app, IH. done.
      * intros [= <-].
        destruct (Logger_log_same_setup record w0) as [_ _ _ -> _]. lia.
      * destruct (threads w0 !! i) as [l|]; [|done]. simpl. intros H.
        destruct (listener_step_same_setup _ _ _ H) as [_ _ _ -> _]. lia.
  - destruct (exec_invariant _ _ Hex) as [_ -> _ Hth _].
    eapply Forall_impl; [exact Hth|]. by intros l [dbg ->].
Qed.

Lemma X3_one_listener_per_init_witness :
  length (threads (world_after console_then_not))
  = count_inits console_then_not
  /\ Forall (fun l => ql_queue l = default_queue (world_after console_then_not))
            (threads (world_after console_then_not)).
Proof.
  apply (X3_one_listener_per_init console_then_not
           (world_after console_then_not)).
  vm_compute; reflexivity.
Defined.

(** X4: how calls of [init] compose.  After a history the configuration is
    [LOGGING_CONFIG] with the level (of the stream handler and of the root
    logger) and the two flags of the last call, with the debug handler in
    the list of the queue handler when some call passed [level=DEBUG], and
    with the stream handler in the list of the root logger when some call
    passed [console=True]; before the first call it is [LOGGING_CONFIG]
    itself.  Earlier levels and flags leave no trace. *)
Theorem X4_last_call_and_accumulation history w :
  exec history import_module = Some w ->
  logging_config w
  = match last_init history with
    | Some (level, disable, propagate) =>
        config_of level (debug_seen history) (console_seen history)
                  disable propagate
    | None => LOGGING_CONFIG
    end.
Proof.
  revert w. induction history as [|e history IH] using rev_ind; intros w.
  - by intros [= <-].
  - rewrite exec_snoc, last_init_snoc.
    destruct (exec history import_module) as [w0|] eqn:Hex0; [|done].
    simpl. specialize (IH w0 eq_refl).
    destruct e as [a level d p c|record|i]; simpl.
    + rewrite (init_returns _ _ _ _ _ _ _ Hex0). intros [= <-].
      by rewrite debug_seen_snoc, console_seen_snoc.
    + intros [= <-].
      destruct (Logger_log_same_setup record w0) as [-> _ _ _ _].
      rewrite debug_seen_snoc, console_seen_snoc, !orb_false_r. exact IH.
    + destruct (threads w0 !! i) as [l|]; [|done]. simpl. intros H.
      destruct (listener_step_same_setup _ _ _ H) as [-> _ _ _ _].
      rewrite debug_seen_snoc, console_seen_snoc, !orb_false_r. exact IH.
Qed.

Lemma X4_last_call_and_accumulation_witness :
  logging_config (world_after debug_then_info)
  = match last_init debug_then_info with
    | Some (level, disable, propagate) =>
        config_of level (debug_seen debug_then_info)
                  (console_seen debug_then_info) disable propagate
    | None => LOGGING_CONFIG
    end.
Proof.
  apply (X4_last_call_and_accumulation debug_then_info
           (world_after debug_then_info)).
  vm_compute; reflexivity.
Defined.

Lemma QueueListenerHandler_init_sinks hs respect run queue_arg w self w' :
  QueueListenerHandler_init hs respect run queue_arg w = Some (self, w') ->
  files w' = files w /\ stdout w' = stdout w
  /\ threads w' = (if run then threads w ++ [_listener self] else threads w).
Proof.
  unfold QueueListenerHandler_init.
  destruct (_resolve_handlers hs) as [resolved|]; [|done]. simpl.
  intros [= <- <-]. by destruct run.
Qed.

Lemma dictConfig_sinks cfg w w' :
  dictConfig cfg w = Some w' -> files w' = files w /\ stdout w' = stdout w.
Proof.
  unfold dictConfig. intros H.
  destruct (configure_handler cfg "app_handler" _); simpl in H; [|done].
  destruct (configure_handler cfg "debug_handler" _); simpl in H; [|done].
  destruct (configure_handler cfg "error_handler" _); simpl in H; [|done].
  destruct (QueueListenerHandler_init _ _ _ _ _) as [[qh w1]|] eqn:Hq;
    simpl in H; [|done].
  apply QueueListenerHandler_init_sinks in Hq as (<- & <- & _).
  destruct (configure_handler cfg "stream" _); simpl in H; [|done].
  destruct (mapM _ _); simpl in H; [|done].
  by injection H as <-.
Qed.

(** X5: [init] writes nothing and leaves the queues alone, in whatever
    state it is called: the files, the console, the queue objects with the
    records waiting in them, and the default queue are the same after the
    call.  Records logged before a second call of [init] are still waiting
    after it. *)
Theorem X5_init_keeps_sinks_and_queues a level d p c w w' :
  init a level d p c w = Some w' ->
  files w' = files w
  /\ stdout w' = stdout w
  /\ heap w' = heap w
  /\ default_queue w' = default_queue w.
Proof.
  intros H. destruct (init_queues _ _ _ _ _ _ _ H) as [Hd Hh].
  unfold init in H. apply dictConfig_sinks in H as [Hf Hs]. done.
Qed.

Lemma X5_init_keeps_sinks_and_queues_witness :
  files (world_after (one_info ++ [Init "app" DEBUG true true true]))
  = files (world_after one_info)
  /\ stdout (world_after (one_info ++ [Init "app" DEBUG true true true]))
     = stdout (world_after one_info)
  /\ heap (world_after (one_info ++ [Init "app" DEBUG true true true]))
     = heap (world_after one_info)
  /\ default_queue (world_after (one_info ++ [Init "app" DEBUG true true true]))
     = default_queue (world_after one_info).
Proof.
  apply (X5_init_keeps_sinks_and_queues "app" DEBUG true true true
           (world_after one_info)).
  vm_compute; reflexivity.
Defined.

(** What a logging call does to the sinks, in any world the process
    reaches. *)
Lemma Logger_log_sinks history w record :
  exec history import_module = Some w ->
  files (Logger_log record w) = files w
  /\ stdout (Logger_log record w)
     = stdout w ++ (if console_seen history && isEnabledFor (levelno record) w
                    then [verbose_line record] else []).
Proof.
  intros Hex.
  destruct (exec_invariant _ _ Hex) as [(lv & dis & prop & _ & Hroot) _ _ _ _].
  destruct (init_seen history) eqn:Hi.
  - by apply (Logger_log_root_of _ _ _ _ _ record _ Hroot).
  - destruct (Logger_log_no_handlers record w) as [Hf Hs]; [by rewrite Hroot|].
    split; [done|]. rewrite Hs.
    assert (console_seen history = false) as ->; [|by rewrite app_nil_r].
    revert Hi. unfold init_seen, console_seen. clear.
    induction history as [|[] history IH]; simpl; try done.
Qed.

Lemma exec_quiet history w :
  exec history import_module = Some w ->
  (debug_seen history = false ->
   Forall (fun l => l = listener_of 0 false) (threads w)
   /\ file_content debug_log w = [])
  /\ (console_seen history = false -> stdout w = []).
Proof.
  revert w. induction history as [|e history IH] using rev_ind; intros w.
  - intros [= <-]. by repeat split.
  - rewrite exec_snoc, debug_seen_snoc, console_seen_snoc.
    destruct (exec history import_module) as [w0|] eqn:Hex0; [|done].
    simpl. destruct (IH w0 eq_refl) as [IHd IHc]. clear IH.
    pose proof (exec_invariant _ _ Hex0) as [_ Hdq _ Hth _].
    destruct e as [a level d p c|record|i]; simpl.
    + rewrite (init_returns _ _ _ _ _ _ _ Hex0). intros [= <-]. split.
      * intros [Hd Hl]%orb_false_elim. destruct (IHd Hd) as [IHt IHf].
        rewrite Hd, Hl. unfold after_init. simpl. split; [|done].
        apply Forall_app. split; [done|]. apply Forall_singleton.
        by rewrite Hdq.
      * intros [Hc _]%orb_false_elim. by apply IHc.
    + intros [= <-]. rewrite !orb_false_r.
      destruct (Logger_log_sinks _ _ record Hex0) as [Hf Hs].
      destruct (Logger_log_same_setup record w0) as [_ _ _ Ht _].
      split.
      * intros Hd. destruct (IHd Hd) as [IHt IHf]. rewrite Ht.
        split; [done|]. unfold file_content. by rewrite Hf.
      * intros Hc. rewrite Hs, Hc. simpl. rewrite app_nil_r. by apply IHc.
    + destruct (threads w0 !! i) as [l|] eqn:Hl; [|done]. simpl. intros H.
      rewrite !orb_false_r.
      destruct (listener_step_same_setup _ _ _ H) as [_ _ _ Ht _].
      destruct (Forall_lookup_1 _ _ _ _ Hth Hl) as [dbg ->].
      split.
      * intros Hd. destruct (IHd Hd) as [IHt IHf]. rewrite Ht.
        split; [done|].
        pose proof (Forall_lookup_1 _ _ _ _ IHt Hl) as E.
        rewrite E in H.
        apply deliver_sinks in H as (? & ? & _ & _ & _ & -> & _).
        by rewrite IHf.
      * intros Hc.
        apply deliver_sinks in H as (? & ? & _ & _ & _ & _ & ->).
        by apply IHc.
Qed.

(** X6: [debug.log] is written only in debug mode: as long as no call of
    [init] has passed [level=DEBUG], the file holds no line, whatever was
    logged and delivered. *)
Theorem X6_debug_log_needs_debug history w :
  exec history import_module = Some w ->
  debug_seen history = false ->
  file_content debug_log w = [].
Proof.
  intros Hex Hd. destruct (exec_quiet _ _ Hex) as [H _].
  by destruct (H Hd).
Qed.

Lemma X6_debug_log_needs_debug_witness :
  file_content debug_log (world_after quiet) = [].
Proof.
  apply (X6_debug_log_needs_debug quiet (world_after quiet));
    vm_compute; reflexivity.
Defined.

(** X7: the console is written only when asked for: as long as no call of
    [init] has passed [console=True], nothing is written to standard
    output, whatever was logged and delivered. *)
Theorem X7_console_needs_console history w :
  exec history import_module = Some w ->
  console_seen history = false ->
  stdout w = [].
Proof. intros Hex Hc. destruct (exec_quiet _ _ Hex) as [_ H]. by apply H. Qed.

Lemma X7_console_needs_console_witness : stdout (world_after quiet) = [].
Proof.
  apply (X7_console_needs_console quiet (world_after quiet));
    vm_compute; reflexivity.
Defined.

(** X8: debug mode cannot be switched off.  Once some call of [init] has
    passed [level=DEBUG], a later call at any level still starts a listener
    with the debug handler, and that listener copies every record at level
    DEBUG or above it is given to [debug.log]. *)
Theorem X8_debug_handler_stays history w a level d p c :
  exec history import_module = Some w ->
  debug_seen history = true ->
  exists w' l,
    init a level d p c w = Some w'
    /\ last (threads w') = Some l
    /\ Instance debug_h ∈ ql_handlers l
    /\ (forall record,
          (DEBUG <= levelno record)%Z ->
          exists outs,
            QueueListener_handle l record = Some outs
            /\ lines_to (LogFile debug_log) outs = [verbose_line record]).
Proof.
  intros Hex Hd. do 2 eexists.
  split; [by apply (init_returns _ _ _ _ _ _ _ Hex)|].
  rewrite Hd. unfold after_init. simpl.
  split; [by rewrite last_snoc|]. split.
  - simpl. set_solver.
  - intros record Hlv. eexists.
    split; [apply QueueListener_handle_listener_of|].
    destruct (lines_to_routed true record) as (_ & _ & -> & _).
    simpl. by rewrite (proj2 (Z.leb_le _ _) Hlv).
Qed.

Lemma X8_debug_handler_stays_witness :
  exists w' l,
    init "app" INFO false false false (world_after test_init) = Some w'
    /\ last (threads w') = Some l
    /\ Instance debug_h ∈ ql_handlers l
    /\ (forall record,
          (DEBUG <= levelno record)%Z ->
          exists outs,
            QueueListener_handle l record = Some outs
            /\ lines_to (LogFile debug_log) outs = [verbose_line record]).
Proof.
  apply (X8_debug_handler_stays test_init (world_after test_init)
           "app" INFO false false false);
    vm_compute; reflexivity.
Defined.

(** The capacity of the queues is respected by every step. *)

Lemma put_nowait_within_capacity q record w w' :
  within_capacity w -> put_nowait q record w = Some w' -> within_capacity w'.
Proof.
  intros Hw. unfold put_nowait.
  destruct (heap w !! q) as [qu|] eqn:Hq; [|done].
  destruct (0 <? maxsize qu)%Z eqn:Hpos; simpl.
  - destruct (Z.leb_spec (maxsize qu) (Z.of_nat (length (items qu))));
      [done|]. intros [= <-]. intros q' qu'. simpl.
    destruct (decide (q = q')) as [<-|Hne].
    + rewrite lookup_insert_eq. intros [= <-]. simpl.
      rewrite length_app. simpl. lia.
    + rewrite lookup_insert_ne by done. apply Hw.
  - intros [= <-]. intros q' qu'. simpl.
    destruct (decide (q = q')) as [<-|Hne].
    + rewrite lookup_insert_eq. intros [= <-]. simpl.
      apply Z.ltb_ge in Hpos. lia.
    + rewrite lookup_insert_ne by done. apply Hw.
Qed.

Lemma get_within_capacity q record w w' :
  within_capacity w -> get q w = Some (record, w') -> within_capacity w'.
Proof.
  intros Hw. unfold get.
  destruct (heap w !! q) as [qu|] eqn:Hq; [|done].
  destruct (items qu) as [|r rest] eqn:E; [done|]. intros [= <- <-].
  intros q' qu'. simpl. destruct (decide (q = q')) as [<-|Hne].
  - rewrite lookup_insert_eq. intros [= <-]. simpl. intros Hpos.
    specialize (Hw _ _ Hq Hpos). rewrite E in Hw. simpl in Hw. lia.
  - rewrite lookup_insert_ne by done. apply Hw.
Qed.

Lemma within_capacity_heap w w' :
  heap w' = heap w -> within_capacity w -> within_capacity w'.
Proof. unfold within_capacity. by intros ->. Qed.

Lemma callHandlers_within_capacity record w :
  within_capacity w -> within_capacity (callHandlers record w).
Proof.
  unfold callHandlers. generalize (l_handlers (root w)) as hs.
  intros hs. revert w. induction hs as [|h hs IH]; intros w Hw; simpl.
  - done.
  - apply IH. case_match; [|done]. destruct (h.2).
    + eapply within_capacity_heap; [apply perform_heap|done].
    + unfold QueueHandler_emit.
      destruct (put_nowait _ _ _) eqn:Hput; simpl; [|done].
      by eapply put_nowait_within_capacity.
Qed.

Lemma step_within_capacity e w w' :
  within_capacity w -> step e w = Some w' -> within_capacity w'.
Proof.
  intros Hw. destruct e as [a level d p c|record|i]; simpl.
  - intros H. apply init_queues in H as [_ H].
    by eapply within_capacity_heap.
  - intros [= <-]. unfold Logger_log. case_match; [|done].
    by apply callHandlers_within_capacity.
  - destruct (threads w !! i) as [l|]; [|done]. simpl.
    unfold listener_step.
    destruct (get (ql_queue l) w) as [[record w1]|] eqn:Hg; [|done]. simpl.
    destruct (QueueListener_handle l record) as [outs|]; [|done]. simpl.
    intros [= <-]. eapply within_capacity_heap; [apply perform_heap|].
    by eapply get_within_capacity.
Qed.

Lemma exec_within_capacity history w w' :
  within_capacity w -> exec history w = Some w' -> within_capacity w'.
Proof.
  intros Hw. revert w'.
  induction history as [|e history IH] using rev_ind; intros w'.
  - by intros [= <-].
  - rewrite exec_snoc. destruct (exec history w) as [w0|]; [|done]. simpl.
    by apply step_within_capacity, IH.
Qed.

(** X9: the bound of the default queue holds throughout: in every state
    the process reaches, at most 1000 records are waiting in it. *)
Theorem X9_at_most_1000_waiting history w :
  exec history import_module = Some w ->
  (length (waiting (default_queue w) w) <= 1000)%nat.
Proof.
  intros Hex.
  assert (within_capacity import_module) as H0.
  { intros q qu. unfold import_module. simpl.
    destruct (decide (q = 0%nat)) as [->|Hne].
    - rewrite lookup_insert_eq. intros [= <-]. simpl. lia.
    - by rewrite lookup_insert_ne, lookup_empty. }
  pose proof (exec_within_capacity _ _ _ H0 Hex) as Hw.
  destruct (exec_invariant _ _ Hex) as [_ -> Hcap _ _].
  unfold waiting. destruct (heap w !! 0%nat) as [qu|] eqn:Hq; simpl; [|lia].
  simpl in Hcap. injection Hcap as Hm.
  specialize (Hw _ _ Hq). rewrite Hm in Hw. lia.
Qed.

Lemma X9_at_most_1000_waiting_witness :
  (length (waiting (default_queue (world_after three_waiting))
                   (world_after three_waiting)) <= 1000)%nat.
Proof.
  apply (X9_at_most_1000_waiting three_waiting (world_after three_waiting)).
  vm_compute; reflexivity.
Defined.

(** X10: a logging call the logger is enabled for puts its record at the
    tail of the default queue when fewer than 1000 records are waiting; when
    1000 are waiting the record is dropped and the queue is left as it
    is. *)
Theorem X10_queued_or_dropped history w record :
  exec history import_module = Some w ->
  init_seen history = true ->
  isEnabledFor (levelno record) w = true ->
  waiting (default_queue w) (Logger_log record w)
  = if (length (waiting (default_queue w) w) <? 1000)%nat
    then waiting (default_queue w) w ++ [record]
    else waiting (default_queue w) w.
Proof.
  intros Hex Hi Hen.
  destruct (exec_invariant _ _ Hex)
    as [(lv & dis & prop & _ & Hroot) -> Hcap _ _].
  rewrite Hi in Hroot.
  unfold Logger_log. rewrite Hen. unfold callHandlers. rewrite Hroot.
  assert ((NOTSET <=? levelno record)%Z = true) as Hn.
  { unfold isEnabledFor in Hen.
    destruct (Z.leb_spec (levelno record) 0); [done|].
    apply Z.leb_le. unfold NOTSET. lia. }
  assert (waiting 0 (QueueHandler_emit
                       (queue_handler_of 0 (debug_seen history)) record w)
          = if (length (waiting 0 w) <? 1000)%nat
            then waiting 0 w ++ [record] else waiting 0 w) as Hq.
  { unfold QueueHandler_emit, put_nowait, waiting. simpl.
    destruct (heap w !! 0%nat) as [qu|] eqn:Hh; [|done].
    simpl in Hcap. injection Hcap as Hm. rewrite Hm. simpl.
    destruct (Nat.ltb_spec (length (items qu)) 1000).
    - destruct (Z.leb_spec 1000 (Z.of_nat (length (items qu)))); [lia|].
      simpl. by rewrite lookup_insert_eq.
    - destruct (Z.leb_spec 1000 (Z.of_nat (length (items qu)))); [|lia].
      simpl. by rewrite Hh. }
  simpl. rewrite Hn.
  destruct (console_seen history); simpl; [|done].
  destruct (lv <=? levelno record)%Z; [|done].
  rewrite <- Hq. unfold waiting. by rewrite write_heap.
Qed.

Lemma X10_queued_or_dropped_witness :
  waiting (default_queue (world_after one_init))
          (Logger_log info_record (world_after one_init))
  = if (length (waiting (default_queue (world_after one_init))
                        (world_after one_init)) <? 1000)%nat
    then waiting (default_queue (world_after one_init))
                 (world_after one_init) ++ [info_record]
    else waiting (default_queue (world_after one_init))
                 (world_after one_init).
Proof.
  apply (X10_queued_or_dropped one_init (world_after one_init) info_record);
    vm_compute; reflexivity.
Defined.

(** Draining a queue: the one listener takes as many turns as there are
    records waiting. *)
Lemma drain q dbg its :
  forall w m,
    threads w !! 0%nat = Some (listener_of q dbg) ->
    heap w !! q = Some {| maxsize := m; items := its |} ->
    exists w',
      exec (replicate (length its) (Deliver 0)) w = Some w'
      /\ waiting q w' = []
      /\ file_content app_log w'
         = file_content app_log w
           ++ (compact_line <$> filter (fun r => levelno r = INFO) its)
      /\ file_content errors_log w'
         = file_content errors_log w
           ++ (verbose_line <$> filter (fun r => (WARNING <= levelno r)%Z) its)
      /\ file_content debug_log w'
         = file_content debug_log w
           ++ (if dbg
               then verbose_line
                      <$> filter (fun r => (DEBUG <= levelno r)%Z) its
               else [])
      /\ stdout w' = stdout w.
Proof.
  induction its as [|r its IH]; intros w m Hth Hq.
  - exists w. unfold waiting. rewrite Hq. simpl.
    rewrite !app_nil_r. by destruct dbg; rewrite ?app_nil_r.
  - simpl replicate. rewrite exec_cons. simpl. rewrite Hth. simpl.
    assert (get q w
            = Some (r, set_heap (<[q := {| maxsize := m; items := its |}]>
                                   (heap w)) w)) as Hg.
    { unfold get. by rewrite Hq. }
    rewrite (listener_step_listener_of _ dbg _ _ _ Hg). simpl.
    pose proof (listener_step_listener_of _ dbg _ _ _ Hg) as Hstep.
    apply deliver_sinks in Hstep as (r' & w1 & Hg' & Ea & Ee & Ed & Eo).
    rewrite Hg in Hg'. injection Hg' as <- <-.
    destruct (IH (perform (routed dbg r)
                    (set_heap (<[q := {| maxsize := m; items := its |}]>
                                 (heap w)) w)) m)
      as (w' & Hex & Hw & Ha & He & Hd & Ho).
    { destruct (perform_same_setup (routed dbg r)
                  (set_heap (<[q := {| maxsize := m; items := its |}]>
                               (heap w)) w)) as [_ _ _ -> _].
      exact Hth. }
    { rewrite perform_heap. simpl. by rewrite lookup_insert_eq. }
    exists w'. split; [done|]. split; [done|].
    rewrite Ha, He, Hd, Ho, Ea, Ee, Ed, Eo, <- !app_assoc.
    split; [|split; [|split; [|done]]].
    + f_equal. rewrite filter_cons.
      destruct (decide (levelno r = INFO)) as [E|E].
      * rewrite (proj2 (Z.eqb_eq _ _) E). reflexivity.
      * rewrite (proj2 (Z.eqb_neq _ _) E). reflexivity.
    + f_equal. rewrite filter_cons.
      destruct (decide (WARNING <= levelno r)%Z) as [E|E].
      * rewrite (proj2 (Z.leb_le _ _) E). reflexivity.
      * rewrite (proj2 (Z.leb_nle _ _) E). reflexivity.
    + f_equal. destruct dbg; [|reflexivity]. rewrite filter_cons.
      destruct (decide (DEBUG <= levelno r)%Z) as [E|E].
      * rewrite (proj2 (Z.leb_le _ _) E). reflexivity.
      * rewrite (proj2 (Z.leb_nle _ _) E). reflexivity.
Qed.

(** X11: delivery is first in, first out.  With one listener thread, as many
    turns as there are records waiting empty the queue, and the lines the
    records leave in [app.log], [errors.log] and [debug.log] follow the
    lines already there in the order in which the records were queued. *)
Theorem X11_delivery_in_order history w l :
  exec history import_module = Some w ->
  threads w = [l] ->
  exists w' dbg,
    l = listener_of 0 dbg
    /\ exec (replicate (length (waiting 0 w)) (Deliver 0)) w = Some w'
    /\ waiting 0 w' = []
    /\ file_content app_log w'
       = file_content app_log w
         ++ (compact_line
               <$> filter (fun r => levelno r = INFO) (waiting 0 w))
    /\ file_content errors_log w'
       = file_content errors_log w
         ++ (verbose_line
               <$> filter (fun r => (WARNING <= levelno r)%Z) (waiting 0 w))
    /\ file_content debug_log w'
       = file_content debug_log w
         ++ (if dbg
             then verbose_line
                    <$> filter (fun r => (DEBUG <= levelno r)%Z) (waiting 0 w)
             else []).
Proof.
  intros Hex Ht.
  destruct (exec_invariant _ _ Hex) as [_ _ Hcap Hth _].
  rewrite Ht in Hth. apply Forall_singleton in Hth as [dbg ->].
  destruct (heap w !! 0%nat) as [[m its]|] eqn:Hq; [|done].
  destruct (drain 0 dbg its w m) as (w' & H1 & H2 & H3 & H4 & H5 & _);
    [by rewrite Ht|done|].
  assert (waiting 0 w = its) as -> by (unfold waiting; by rewrite Hq).
  exists w', dbg.
  split; [reflexivity|]. split; [exact H1|]. split; [exact H2|].
  split; [exact H3|]. split; [exact H4|exact H5].
Qed.

Lemma X11_delivery_in_order_witness :
  exists w' dbg,
    listener_of 0 false = listener_of 0 dbg
    /\ exec (replicate (length (waiting 0 (world_after three_waiting)))
                       (Deliver 0)) (world_after three_waiting) = Some w'
    /\ waiting 0 w' = []
    /\ file_content app_log w'
       = file_content app_log (world_after three_waiting)
         ++ (compact_line
               <$> filter (fun r => levelno r = INFO)
                          (waiting 0 (world_after three_waiting)))
    /\ file_content errors_log w'
       = file_content errors_log (world_after three_waiting)
         ++ (verbose_line
               <$> filter (fun r => (WARNING <= levelno r)%Z)
                          (waiting 0 (world_after three_waiting)))
    /\ file_content debug_log w'
       = file_content debug_log (world_after three_waiting)
         ++ (if dbg
             then verbose_line
                    <$> filter (fun r => (DEBUG <= levelno r)%Z)
                               (waiting 0 (world_after three_waiting))
             else []).
Proof.
  apply (X11_delivery_in_order three_waiting (world_after three_waiting)
           (listener_of 0 false));
    vm_compute; reflexivity.
Defined.

(** [_resolve_handlers] position by position. *)
Lemma resolve_handlers_Forall2 l convert resolved :
  _resolve_handlers (ConvertingList l convert) = Some resolved ->
  Forall2 (fun ref it =>
             exists handler,
               convert ref = Some handler
               /\ match handler with
                  | Dict spec =>
                      if String.eqb (hs_class spec) "logging.StreamHandler"
                      then Instance <$> manual_stream_handler spec
                      else Some handler
                  | _ => Some handler
                  end = Some it) l resolved.
Proof.
  unfold _resolve_handlers. intros H. apply mapM_Some in H.
  eapply Forall2_impl; [exact H|]. intros ref it Hit. simpl in Hit.
  destruct (convert ref) as [handler|]; [|done]. by exists handler.
Qed.

(** X12: [_resolve_handlers] keeps the handlers in number and order: the
    result has one position per reference of the converting list, a
    reference that converts to a configured handler yields that handler
    unchanged at the same position, and no dictionary of class
    [logging.StreamHandler] is left in the result. *)
Theorem X12_resolve_handlers_shape l convert resolved :
  _resolve_handlers (ConvertingList l convert) = Some resolved ->
  length resolved = length l
  /\ (forall i ref h,
        l !! i = Some ref ->
        convert ref = Some (Instance h) ->
        resolved !! i = Some (Instance h))
  /\ (forall spec,
        Dict spec ∈ resolved -> hs_class spec <> "logging.StreamHandler").
Proof.
  intros H. apply resolve_handlers_Forall2 in H. split; [|split].
  - symmetry. by eapply Forall2_length.
  - intros i ref h Hl Hc.
    destruct (Forall2_lookup_l _ _ _ _ _ H Hl) as (it & Hr & handler & Hc' & Hit).
    rewrite Hc in Hc'. injection Hc' as <-. by rewrite Hr, <- Hit.
  - intros spec [i Hi]%list_elem_of_lookup.
    destruct (Forall2_lookup_r _ _ _ _ _ H Hi) as (ref & _ & handler & _ & Hit).
    destruct handler as [h|spec'|]; try done.
    destruct (String.eqb_spec (hs_class spec') "logging.StreamHandler")
      as [E|E].
    + by destruct (manual_stream_handler spec').
    + by injection Hit as ->.
Qed.

Lemma X12_resolve_handlers_shape_witness :
  length [Instance app_h; Instance error_h]
  = length ["cfg://handlers.app_handler"; "cfg://handlers.error_handler"]
  /\ (forall i ref h,
        ["cfg://handlers.app_handler"; "cfg://handlers.error_handler"] !! i
        = Some ref ->
        cfg_convert LOGGING_CONFIG
          {[ "app_handler" := app_h; "error_handler" := error_h ]} ref
        = Some (Instance h) ->
        [Instance app_h; Instance error_h] !! i = Some (Instance h))
  /\ (forall spec,
        Dict spec ∈ [Instance app_h; Instance error_h] ->
        hs_class spec <> "logging.StreamHandler").
Proof.
  apply (X12_resolve_handlers_shape
           ["cfg://handlers.app_handler"; "cfg://handlers.error_handler"]
           (cfg_convert LOGGING_CONFIG
              {[ "app_handler" := app_h; "error_handler" := error_h ]})).
  vm_compute; reflexivity.
Defined.

(** X13: a reference that cannot be converted makes the construction of the
    queue handler fail: no handler is returned and no listener is
    started. *)
Theorem X13_unconvertible_reference l convert ref respect run queue_arg w :
  ref ∈ l ->
  convert ref = None ->
  QueueListenerHandler_init (ConvertingList l convert) respect run queue_arg w
  = None.
Proof.
  intros [i Hi]%list_elem_of_lookup Hc. unfold QueueListenerHandler_init.
  destruct (_resolve_handlers (ConvertingList l convert)) as [resolved|] eqn:H;
    [|done].
  apply resolve_handlers_Forall2 in H.
  destruct (Forall2_lookup_l _ _ _ _ _ H Hi) as (it & _ & handler & Hc' & _).
  congruence.
Qed.

Lemma X13_unconvertible_reference_witness :
  QueueListenerHandler_init
    (ConvertingList ["cfg://handlers.app_handler"; "cfg://handlers.missing"]
       (cfg_convert LOGGING_CONFIG {[ "app_handler" := app_h ]}))
    true true None import_module
  = None.
Proof.
  apply (X13_unconvertible_reference
           ["cfg://handlers.app_handler"; "cfg://handlers.missing"]
           (cfg_convert LOGGING_CONFIG {[ "app_handler" := app_h ]})
           "cfg://handlers.missing").
  - apply list_elem_of_In. simpl. auto.
  - vm_compute. reflexivity.
Defined.



(** The same for a dictionary that names standard error, and for one
    without a [stream] entry, where [handler['stream']] raises. *)
Lemma stream_handler_on_stderr :
  _resolve_handlers (ConvertingList ["cfg://handlers.stream"]
                                    (fun _ => Some (Dict stderr_spec)))
  = Some [Instance {| h_name := "";
                      h_level := WARNING;
                      h_filters := [];
                      h_formatter := FormatterEntry "debug_json";
                      h_sink := Stream "ext://sys.stderr" |}].
Proof. vm_compute. reflexivity. Qed.

Lemma stream_handler_without_stream l convert ref spec :
  ref ∈ l ->
  convert ref = Some (Dict spec) ->
  hs_class spec = "logging.StreamHandler" ->
  hs_stream spec = None ->
  _resolve_handlers (ConvertingList l convert) = None.
Proof.
  intros [i Hl]%list_elem_of_lookup Hc Hcl Hs.
  destruct (_resolve_handlers (ConvertingList l convert)) as [resolved|] eqn:H;
    [|reflexivity].
  apply resolve_handlers_Forall2 in H.
  destruct (Forall2_lookup_l _ _ _ _ _ H Hl) as (it & Hr & handler & Hc' & Hit).
  rewrite Hc in Hc'. injection Hc' as <-. rewrite Hcl in Hit.
  cbn [String.eqb Ascii.eqb Bool.eqb] in Hit.
  unfold manual_stream_handler in Hit. rewrite Hs in Hit. discriminate Hit.
Qed.

Lemma put_nowait_other q record w w' q' :
  put_nowait q record w = Some w' -> q' <> q -> heap w' !! q' = heap w !! q'.
Proof.
  unfold put_nowait. destruct (heap w !! q) as [qu|]; [|done].
  case_match; [done|]. intros [= <-] Hne. simpl.
  apply lookup_insert_ne. congruence.
Qed.

(** X15: a handler given a queue of its own uses that queue and not the
    default one.  Its listener takes its records from the queue given, a
    listener is started exactly when [auto_run] is set, and emitting a record
    through the handler leaves every other queue, the default one among
    them, as it is. *)
Theorem X15_own_queue hs respect run q w self w' :
  QueueListenerHandler_init hs respect run (Some q) w = Some (self, w') ->
  queue self = q
  /\ ql_queue (_listener self) = q
  /\ threads w' = (if run then threads w ++ [_listener self] else threads w)
  /\ forall record q',
       q' <> q ->
       heap (QueueHandler_emit self record w') !! q' = heap w !! q'.
Proof.
  intros H.
  destruct (QueueListenerHandler_init_spec _ _ _ _ _ _ _ H)
    as (Hq & Hl & _ & Hh).
  destruct (QueueListenerHandler_init_sinks _ _ _ _ _ _ _ H) as (_ & _ & Ht).
  simpl in Hq. rewrite Hl, Hq. split; [done|]. split; [done|].
  split; [done|]. intros record q' Hne.
  rewrite <- Hh. unfold QueueHandler_emit. rewrite Hq.
  destruct (put_nowait q record w') as [w''|] eqn:Hp; simpl; [|done].
  by apply (put_nowait_other _ _ _ _ _ Hp).
Qed.

Lemma X15_own_queue_witness :
  queue private_handler = 1%nat
  /\ ql_queue (_listener private_handler) = 1%nat
  /\ threads (start private_listener with_private_queue)
     = (if true
        then threads with_private_queue ++ [_listener private_handler]
        else threads with_private_queue)
  /\ forall record q',
       q' <> 1%nat ->
       heap (QueueHandler_emit private_handler record
               (start private_listener with_private_queue)) !! q'
       = heap with_private_queue !! q'.
Proof.
  apply (X15_own_queue (PlainList []) true true 1 with_private_queue
           private_handler (start private_listener with_private_queue)).
  vm_compute; reflexivity.
Defined.

Lemma match_one_literal s segs :
  is_Some (match_path [Lit s] segs) -> segs = [s].
Proof.
  destruct segs as [|x [|y segs]]; cbn [match_path]; intros [? H].
  - done.
  - destruct (String.eqb_spec s x); [by subst|done].
  - destruct (String.eqb_spec s x); done.
Qed.

Lemma match_items_inv p segs :
  is_Some (match_path [Lit "items"; Param p] segs) ->
  exists x, segs = ["items"; x].
Proof.
  destruct segs as [|x [|y [|z segs]]]; cbn [match_path]; intros [? H].
  - done.
  - destruct (String.eqb_spec "items" x); done.
  - destruct (String.eqb_spec "items" x); [subst; by eexists|done].
  - destruct (String.eqb_spec "items" x); [|done].
    destruct (String.eqb y ""); done.
Qed.

(** X16: the routes of the application do not overlap: no path is matched
    by the templates of two different routes, so that the route serving a
    request does not depend on the order of registration ([/items/{item_id}]
    does not capture [/Animal], for one). *)
Theorem X16_routes_do_not_overlap segs r1 r2 :
  r1 ∈ app ->
  r2 ∈ app ->
  is_Some (match_path (path r1) segs) ->
  is_Some (match_path (path r2) segs) ->
  r1 = r2.
Proof.
  unfold app, include_router, router. rewrite app_nil_l.
  rewrite !elem_of_cons, !elem_of_nil.
  intros [->|[->|[->|[]]]] [->|[->|[->|[]]]]; try done;
    cbn [path]; intros H1 H2;
    try apply match_one_literal in H1; try apply match_one_literal in H2;
    try apply match_items_inv in H1 as [x1 H1];
    try apply match_items_inv in H2 as [x2 H2];
    congruence.
Qed.

Lemma X16_routes_do_not_overlap_witness :
  {| path := [Lit "Animal"]; handler := NoArgs read_root_Animal |}
  = {| path := [Lit "Animal"]; handler := NoArgs read_root_Animal |}.
Proof.
  apply (X16_routes_do_not_overlap ["Animal"]).
  - apply list_elem_of_In. simpl. auto.
  - apply list_elem_of_In. simpl. auto.
  - vm_compute. eexists. reflexivity.
  - vm_compute. eexists. reflexivity.
Defined.

(** Listener threads are only ever added, at the end. *)

Lemma foldl_step_None history :
  foldl (fun ow e => ow ≫= step e) None history = None.
Proof. induction history as [|e history IH]; [done|]. simpl. exact IH. Qed.

Lemma exec_app history1 history2 w :
  exec (history1 ++ history2) w = exec history1 w ≫= exec history2.
Proof.
  unfold exec. rewrite foldl_app.
  destruct (foldl _ (Some w) history1) as [w1|]; [done|].
  simpl. apply foldl_step_None.
Qed.

Lemma dictConfig_threads cfg w w' :
  dictConfig cfg w = Some w' -> exists l, threads w' = threads w ++ [l].
Proof.
  unfold dictConfig. intros H.
  destruct (configure_handler cfg "app_handler" _); simpl in H; [|done].
  destruct (configure_handler cfg "debug_handler" _); simpl in H; [|done].
  destruct (configure_handler cfg "error_handler" _); simpl in H; [|done].
  destruct (QueueListenerHandler_init _ _ _ _ _) as [[qh w1]|] eqn:Hq;
    simpl in H; [|done].
  apply QueueListenerHandler_init_sinks in Hq as (_ & _ & Ht).
  destruct (configure_handler cfg "stream" _); simpl in H; [|done].
  destruct (mapM _ _); simpl in H; [|done].
  injection H as <-. simpl. by eexists.
Qed.

Lemma step_threads e w w' i l :
  step e w = Some w' -> threads w !! i = Some l -> threads w' !! i = Some l.
Proof.
  destruct e as [a level d p c|record|j]; simpl.
  - unfold init. intros H Hl. apply dictConfig_threads in H as [l' ->].
    simpl. by apply lookup_app_l_Some.
  - intros [= <-].
    by destruct (Logger_log_same_setup record w) as [_ _ _ -> _].
  - destruct (threads w !! j) as [l'|]; [|done]. simpl. intros H.
    by destruct (listener_step_same_setup _ _ _ H) as [_ _ _ -> _].
Qed.

Lemma exec_threads history w w' i l :
  exec history w = Some w' ->
  threads w !! i = Some l -> threads w' !! i = Some l.
Proof.
  revert w'. induction history as [|e history IH] using rev_ind; intros w'.
  - by intros [= <-].
  - rewrite exec_snoc. destruct (exec history w) as [w0|]; [|done]. simpl.
    intros H Hl. eapply step_threads; [exact H|]. by apply IH.
Qed.

(** X17: a listener started before debug mode stays without the debug
    handler.  When the first calls of [init] did not pass [level=DEBUG] and
    a later one does, the first listener thread is still running on the
    shared queue: a turn of it takes a record off the queue and writes
    nothing to [debug.log], so the records it happens to take are missing
    from [debug.log] although the process is in debug mode. *)
Theorem X17_old_listener_skips_debug_log before a d p c later w w' :
  init_seen before = true ->
  debug_seen before = false ->
  exec (before ++ Init a DEBUG d p c :: later) import_module = Some w ->
  step (Deliver 0) w = Some w' ->
  debug_seen (before ++ Init a DEBUG d p c :: later) = true
  /\ (exists record, waiting 0 w = record :: waiting 0 w')
  /\ file_content debug_log w' = file_content debug_log w.
Proof.
  intros Hi Hd Hex Hstep. split.
  { unfold debug_seen. rewrite existsb_app. simpl. apply orb_true_r. }
  rewrite exec_app in Hex.
  destruct (exec before import_module) as [w0|] eqn:Hex0; [|done].
  simpl in Hex.
  destruct (exec_quiet _ _ Hex0) as [Hq _]. destruct (Hq Hd) as [Hth _].
  destruct (exec_invariant _ _ Hex0) as [_ _ _ _ Hlast].
  specialize (Hlast Hi).
  assert (threads w0 !! 0%nat = Some (listener_of 0 false)) as H0.
  { destruct (threads w0) as [|l0 ls]; [done|].
    apply Forall_cons in Hth as [-> _]. done. }
  pose proof (exec_threads _ _ _ _ _ Hex H0) as Hw.
  simpl in Hstep. rewrite Hw in Hstep. simpl in Hstep.
  pose proof (listener_step_inv _ _ _ _ Hstep) as (r & w1 & Hg & Hw').
  apply deliver_sinks in Hstep as (record & w1' & _ & _ & _ & Ed & _).
  split; [|by rewrite Ed, app_nil_r].
  exists r. rewrite (get_waiting _ _ _ _ Hg). subst w'. unfold waiting.
  by rewrite perform_heap.
Qed.

Lemma X17_old_listener_skips_debug_log_witness :
  debug_seen late_debug = true
  /\ (exists record,
        waiting 0 (world_after late_debug)
        = record :: waiting 0 (world_after (late_debug ++ [Deliver 0])))
  /\ file_content debug_log (world_after (late_debug ++ [Deliver 0]))
     = file_content debug_log (world_after late_debug).
Proof.
  apply (X17_old_listener_skips_debug_log
           [Init "app" INFO false false false] "app" false false false
           [Log (sample_record DEBUG "details")]
           (world_after late_debug)
           (world_after (late_debug ++ [Deliver 0])));
    vm_compute; reflexivity.
Defined.

End more_facts.
